(** * PortForwardingGUI: the tunnel entity and the encrypted session store

    A shallow embedding of [src/encryption.py] and [src/SSHTunnel.py].

    Python [bytes] are [list byte]; a Python [str] is a [string] holding the
    UTF-8 encoding of the text, so that [str.encode()] is the identity on the
    underlying bytes and [bytes.decode()] is a check of UTF-8 well-formedness.
    A function that can raise returns a [result]; the random source, the file
    system and the SSH forwarding library are threaded as explicit state.

    The third-party primitives the code is written against (the AES block
    permutation, SHA-256, the JSON text codec, [os.urandom] and
    [sshtunnel.SSHTunnelForwarder]) are operations of type classes; what the
    code relies on about them is stated as named contracts.  The algorithms
    built from them by the libraries (base64, PKCS#7, CBC, HMAC, PBKDF2) are
    written out.  Of the calls to the logger what is kept is the text they
    build from the tunnel, since building it can fail; the log records
    themselves change nothing of the state. *)

From Stdlib Require Import String Ascii NArith ZArith Bool Lia Arith PeanoNat List.
From Stdlib Require DecimalFacts.
From Stdlib.Strings Require Import Byte.
Import ListNotations.

Set Warnings "-register-all".
Local Open Scope list_scope.

(** ** Exceptions and results *)

(** The exceptions the modelled code paths raise, one constructor per raise
    site of the libraries. *)
Inductive exception : Type :=
| Base64Error          (* binascii.Error / ValueError of base64.b64decode *)
| InvalidKeySize (n : nat)   (* ValueError: Invalid key size (n) for AES. *)
| InvalidIVSize (n : nat)    (* ValueError: Invalid IV size (n) for CBC. *)
| NotBlockMultiple     (* ValueError: The length of the provided data is not
                          a multiple of the block length. *)
| InvalidPadding       (* ValueError: Invalid padding bytes. *)
| UnicodeDecodeError
| JSONDecodeError
| RecursionError       (* text or a value that is nested too deeply *)
| ValueError           (* Exceeds the limit (4300 digits) for integer string
                          conversion: of [str] and of [json.loads] *)
| TypeError
| AttributeError       (* a method called on [None] *)
| FileNotFoundError
| ForwarderError (msg : string). (* raised by the sshtunnel library *)

Definition result (A : Type) : Type := (exception + A)%type.

Abbreviation ok a := (@inr exception _ a).
Abbreviation raise e := (@inl exception _ e).

Definition bind {A B} (m : result A) (k : A -> result B) : result B :=
  match m with
  | inl e => inl e
  | inr a => k a
  end.

Declare Scope result_scope.
Delimit Scope result_scope with result.
Notation "x <- m ;; k" := (bind m (fun x => k))
  (at level 61, m at next level, right associativity) : result_scope.
Local Open Scope result_scope.

Fixpoint mapM {A B} (f : A -> result B) (l : list A) : result (list B) :=
  match l with
  | [] => ok []
  | a :: l' => b <- f a ;; bs <- mapM f l' ;; ok (b :: bs)
  end.

(** ** Bytes *)

Definition bytes := list byte.

Definition byte_of_N (n : N) : byte :=
  match Byte.of_N n with
  | Some b => b
  | None => x00
  end.

Definition xor_byte (a b : byte) : byte :=
  let '(a0, (a1, (a2, (a3, (a4, (a5, (a6, a7))))))) := Byte.to_bits a in
  let '(b0, (b1, (b2, (b3, (b4, (b5, (b6, b7))))))) := Byte.to_bits b in
  Byte.of_bits (xorb a0 b0, (xorb a1 b1, (xorb a2 b2, (xorb a3 b3,
               (xorb a4 b4, (xorb a5 b5, (xorb a6 b6, xorb a7 b7))))))).

(** [bytes(x ^ y for x, y in zip(a, b))] *)
Fixpoint xor_bytes (a b : bytes) : bytes :=
  match a, b with
  | x :: a', y :: b' => xor_byte x y :: xor_bytes a' b'
  | _, _ => []
  end.

(** ** base64 (RFC 4648, as [base64.b64encode] / [base64.b64decode]) *)

Module base64.

Definition pad_char : byte := "="%byte.

(** table_b2a_base64 *)
Definition b2a (n : N) : byte :=
  if (n <? 26)%N then byte_of_N (65 + n)
  else if (n <? 52)%N then byte_of_N (97 + (n - 26))
  else if (n <? 62)%N then byte_of_N (48 + (n - 52))
  else if (n =? 62)%N then "+"%byte
  else "/"%byte.

(** table_a2b_base64: [None] for a character outside the alphabet. *)
Definition a2b (c : byte) : option N :=
  let n := Byte.to_N c in
  if ((65 <=? n) && (n <=? 90))%N%bool then Some (n - 65)%N
  else if ((97 <=? n) && (n <=? 122))%N%bool then Some (n - 97 + 26)%N
  else if ((48 <=? n) && (n <=? 57))%N%bool then Some (n - 48 + 52)%N
  else if (n =? 43)%N then Some 62%N
  else if (n =? 47)%N then Some 63%N
  else None.

Definition enc1 (a : N) : N := N.shiftr a 2.
Definition enc2 (a b : N) : N := N.lor (N.shiftl (N.land a 3) 4) (N.shiftr b 4).
Definition enc3 (b c : N) : N := N.lor (N.shiftl (N.land b 15) 2) (N.shiftr c 6).
Definition enc4 (c : N) : N := N.land c 63.

Fixpoint b64encode (data : bytes) : bytes :=
  match data with
  | [] => []
  | [x] =>
      let a := Byte.to_N x in
      [b2a (enc1 a); b2a (enc2 a 0); pad_char; pad_char]
  | [x; y] =>
      let a := Byte.to_N x in
      let b := Byte.to_N y in
      [b2a (enc1 a); b2a (enc2 a b); b2a (enc3 b 0); pad_char]
  | x :: y :: z :: rest =>
      let a := Byte.to_N x in
      let b := Byte.to_N y in
      let c := Byte.to_N z in
      b2a (enc1 a) :: b2a (enc2 a b) :: b2a (enc3 b c) :: b2a (enc4 c)
        :: b64encode rest
  end.

(** The decoding loop of [binascii.a2b_base64] in its default, non-strict
    mode: characters outside the alphabet are skipped, a pad sequence that
    completes a quad ends the parse, and leftover characters of an
    incomplete quad are an error. *)
Fixpoint a2b_loop (s : bytes) (quad_pos leftchar pads : N) (out : bytes)
  : result bytes :=
  match s with
  | [] => if (quad_pos =? 0)%N then ok out else raise Base64Error
  | c :: s' =>
      if Byte.eqb c pad_char then
        if ((2 <=? quad_pos) && (4 <=? quad_pos + (pads + 1)))%N%bool
        then ok out
        else a2b_loop s' quad_pos leftchar
               (if (2 <=? quad_pos)%N then pads + 1 else pads)%N out
      else
        match a2b c with
        | None => a2b_loop s' quad_pos leftchar pads out
        | Some this_ch =>
            if (quad_pos =? 0)%N then
              a2b_loop s' 1%N this_ch 0%N out
            else if (quad_pos =? 1)%N then
              a2b_loop s' 2%N (N.land this_ch 15) 0%N
                (out ++ [byte_of_N (N.lor (N.shiftl leftchar 2)
                                          (N.shiftr this_ch 4))])
            else if (quad_pos =? 2)%N then
              a2b_loop s' 3%N (N.land this_ch 3) 0%N
                (out ++ [byte_of_N (N.lor (N.shiftl leftchar 4)
                                          (N.shiftr this_ch 2))])
            else
              a2b_loop s' 0%N 0%N 0%N
                (out ++ [byte_of_N (N.lor (N.shiftl leftchar 6) this_ch)])
        end
  end.

Definition is_ascii (c : byte) : bool := (Byte.to_N c <? 128)%N.

(** [base64.b64decode(s)] for a [str] argument: the text is first encoded
    as ASCII, which fails on any other character. *)
Definition b64decode (s : string) : result bytes :=
  let raw := list_byte_of_string s in
  if forallb is_ascii raw then a2b_loop raw 0 0 0 [] else raise Base64Error.

End base64.

(** ** PKCS#7 padding ([cryptography.hazmat.primitives.padding.PKCS7(128)]) *)

Module padding.

(** [algorithms.AES.block_size // 8] *)
Definition block_size : nat := 16.

(** [padder.update(data) + padder.finalize()] *)
Definition pad (data : bytes) : bytes :=
  let pad_size := block_size - (length data mod block_size) in
  data ++ repeat (byte_of_N (N.of_nat pad_size)) pad_size.

(** The check of the last block: its last byte [n] is between 1 and the
    block size and the last [n] bytes all equal [n]. *)
Definition check_pkcs7_padding (buffer : bytes) : bool :=
  let pad_byte := last buffer x00 in
  let pad_size := N.to_nat (Byte.to_N pad_byte) in
  (1 <=? pad_size) && (pad_size <=? block_size)
  && forallb (Byte.eqb pad_byte) (skipn (length buffer - pad_size) buffer).

(** [unpadder.update(data) + unpadder.finalize()]: [update] releases all
    but the last full block, [finalize] demands that exactly one block is
    left and that its padding is valid. *)
Definition unpad (data : bytes) : result bytes :=
  let finished_blocks := length data / block_size - 1 in
  let released := firstn (finished_blocks * block_size) data in
  let buffer := skipn (finished_blocks * block_size) data in
  if negb (length buffer =? block_size) then raise InvalidPadding
  else if negb (check_pkcs7_padding buffer) then raise InvalidPadding
  else
    let pad_size := N.to_nat (Byte.to_N (last buffer x00)) in
    ok (released ++ firstn (length buffer - pad_size) buffer).

End padding.

(** ** AES in CBC mode ([cryptography.hazmat.primitives.ciphers]) *)

(** The AES block permutation, keyed by a 16, 24 or 32 byte key. *)
Class BlockCipher : Type := {
  AES_encrypt_block : bytes -> bytes -> bytes;
  AES_decrypt_block : bytes -> bytes -> bytes
}.

(** What the code relies on: on 16-byte blocks, under a 32-byte key,
    decryption inverts encryption and both keep the block length. *)
Definition BlockCipher_contract (C : BlockCipher) : Prop :=
  forall key block, length key = 32 -> length block = 16 ->
    length (AES_encrypt_block key block) = 16 /\
    AES_decrypt_block key (AES_encrypt_block key block) = block.

Module ciphers.
Section WithCipher.
Context {C : BlockCipher}.

Record cipher : Type := { cipher_key : bytes; cipher_iv : bytes }.

(** [Cipher(algorithms.AES(key), modes.CBC(iv))]: [AES(key)] rejects a key
    that is not 128, 192 or 256 bits long, and the constructor validates
    the mode against the algorithm, rejecting an IV that is not one block
    long. *)
Definition Cipher (key iv : bytes) : result cipher :=
  if negb ((length key =? 16) || (length key =? 24) || (length key =? 32))
  then raise (InvalidKeySize (length key * 8))
  else if negb (length iv =? 16) then raise (InvalidIVSize (length iv))
  else ok {| cipher_key := key; cipher_iv := iv |}.

(** The data cut into 16-byte blocks. *)
Fixpoint blocks_fuel (fuel : nat) (data : bytes) : list bytes :=
  match fuel with
  | 0 => []
  | S fuel' =>
      match data with
      | [] => []
      | _ :: _ => firstn 16 data :: blocks_fuel fuel' (skipn 16 data)
      end
  end.

Definition blocks (data : bytes) : list bytes := blocks_fuel (length data) data.

Fixpoint cbc_encrypt_blocks (key prev : bytes) (bs : list bytes) : list bytes :=
  match bs with
  | [] => []
  | b :: bs' =>
      let c := AES_encrypt_block key (xor_bytes b prev) in
      c :: cbc_encrypt_blocks key c bs'
  end.

Fixpoint cbc_decrypt_blocks (key prev : bytes) (cs : list bytes) : list bytes :=
  match cs with
  | [] => []
  | c :: cs' =>
      xor_bytes (AES_decrypt_block key c) prev :: cbc_decrypt_blocks key c cs'
  end.

(** A list of whole blocks. *)
Definition full_blocks (bs : list bytes) : Prop :=
  Forall (fun b => length b = 16) bs.

(** [encryptor.update(data) + encryptor.finalize()] *)
Definition encryptor (c : cipher) (data : bytes) : result bytes :=
  if negb (length data mod 16 =? 0) then raise NotBlockMultiple
  else ok (concat (cbc_encrypt_blocks (cipher_key c) (cipher_iv c) (blocks data))).

(** [decryptor.update(data) + decryptor.finalize()] *)
Definition decryptor (c : cipher) (data : bytes) : result bytes :=
  if negb (length data mod 16 =? 0) then raise NotBlockMultiple
  else ok (concat (cbc_decrypt_blocks (cipher_key c) (cipher_iv c) (blocks data))).

End WithCipher.
End ciphers.

(** ** PBKDF2 with HMAC-SHA-256 ([cryptography...kdf.pbkdf2.PBKDF2HMAC]) *)

Class HashFunction : Type := {
  SHA256 : bytes -> bytes
}.

(** What the code relies on: a SHA-256 digest is 32 bytes long. *)
Definition HashFunction_contract (H : HashFunction) : Prop :=
  forall m, length (SHA256 m) = 32.

Module kdf.
Section WithHash.
Context {H : HashFunction}.

(** The block size of SHA-256 in bytes. *)
Definition hash_block_size : nat := 64.
Definition digest_size : nat := 32.

(** HMAC (RFC 2104): a key longer than a block is hashed, then the key is
    filled with zero bytes to a full block. *)
Definition hmac (key msg : bytes) : bytes :=
  let k0 := if hash_block_size <? length key then SHA256 key else key in
  let k := k0 ++ repeat x00 (hash_block_size - length k0) in
  SHA256 (xor_bytes k (repeat x5c hash_block_size)
          ++ SHA256 (xor_bytes k (repeat x36 hash_block_size) ++ msg)).

(** The index of a block as four bytes, most significant first. *)
Definition int32_be (i : N) : bytes :=
  [byte_of_N ((i / 16777216) mod 256); byte_of_N ((i / 65536) mod 256);
   byte_of_N ((i / 256) mod 256); byte_of_N (i mod 256)]%N.

(** [F(P, S, c, i) = U_1 xor ... xor U_c] of RFC 8018. *)
Definition pbkdf2_block (password salt : bytes) (iterations : N) (i : N) : bytes :=
  let u1 := hmac password (salt ++ int32_be i) in
  fst (N.iter (iterations - 1)
         (fun tu : bytes * bytes =>
            let u := hmac password (snd tu) in (xor_bytes (fst tu) u, u))
         (u1, u1)).

(** [PBKDF2HMAC(algorithm=SHA256(), length, salt, iterations).derive(key_material)] *)
Definition PBKDF2HMAC (length : nat) (salt : bytes) (iterations : N)
           (key_material : bytes) : bytes :=
  let l := (length + digest_size - 1) / digest_size in
  firstn length
    (concat (map (fun i => pbkdf2_block key_material salt iterations (N.of_nat i))
                 (seq 1 l))).

End WithHash.
End kdf.

(** ** Text *)

Definition in_range (lo hi : N) (b : byte) : bool :=
  ((lo <=? Byte.to_N b) && (Byte.to_N b <=? hi))%N.

Definition continuation : byte -> bool := in_range 128 191.

(** Well-formed UTF-8 (Unicode, table 3-7), which is what the strict decoder
    of [bytes.decode()] accepts. *)
Fixpoint utf8_valid (s : bytes) : bool :=
  match s with
  | [] => true
  | b0 :: s1 =>
      if in_range 0 127 b0 then utf8_valid s1
      else
        match s1 with
        | [] => false
        | b1 :: s2 =>
            if in_range 194 223 b0 then continuation b1 && utf8_valid s2
            else
              match s2 with
              | [] => false
              | b2 :: s3 =>
                  if in_range 224 239 b0 then
                    (if in_range 224 224 b0 then in_range 160 191 b1
                     else if in_range 237 237 b0 then in_range 128 159 b1
                     else continuation b1)
                    && continuation b2 && utf8_valid s3
                  else
                    match s3 with
                    | [] => false
                    | b3 :: s4 =>
                        in_range 240 244 b0
                        && (if in_range 240 240 b0 then in_range 144 191 b1
                            else if in_range 244 244 b0 then in_range 128 143 b1
                            else continuation b1)
                        && continuation b2 && continuation b3 && utf8_valid s4
                    end
              end
        end
  end.

(** [str.encode()] *)
Definition str_encode (s : string) : bytes := list_byte_of_string s.

(** [bytes.decode()] *)
Definition bytes_decode (b : bytes) : result string :=
  if utf8_valid b then ok (string_of_list_byte b) else raise UnicodeDecodeError.

Definition ascii_only (s : string) : bool :=
  forallb base64.is_ascii (list_byte_of_string s).

(** ** Python values and the [json] module *)

(** The Python values that JSON text denotes; a [dict] keeps its keys in
    insertion order.  Floating-point numbers, which the code never writes,
    are left out. *)
Inductive value : Type :=
| VNone
| VBool (b : bool)
| VInt (z : Z)
| VStr (s : string)
| VList (l : list value)
| VDict (d : list (string * value)).

(** [bool(v)] *)
Definition truthy (v : value) : bool :=
  match v with
  | VNone => false
  | VBool b => b
  | VInt z => negb (z =? 0)%Z
  | VStr s => negb (s =? EmptyString)%string
  | VList l => match l with [] => false | _ :: _ => true end
  | VDict d => match d with [] => false | _ :: _ => true end
  end.

Fixpoint distinct (l : list string) : bool :=
  match l with
  | [] => true
  | k :: l' => negb (existsb (String.eqb k) l') && distinct l'
  end.

(** A Python [dict] has no two equal keys. *)
Fixpoint wf_value (v : value) : bool :=
  match v with
  | VList l => forallb wf_value l
  | VDict d =>
      distinct (map fst d)
      && forallb (fun kv : string * value => wf_value (snd kv)) d
  | _ => true
  end.

(** ** [str] of a value

    Writing a value as text can fail in two ways.  Python does not write
    an integer of more than 4300 decimal digits
    ([sys.get_int_max_str_digits()]): [str], [repr] and a replacement field
    of an f-string raise [ValueError] for it.  And a list or a dict is
    written by recursion on its elements, which raises [RecursionError]
    when the value nests deeper than what is left of the interpreter's
    recursion limit where the text is built.  The elements are written in
    order, so the first one that cannot be written gives the error.  The
    text itself is not modelled, only whether it can be written. *)

Definition int_max_str_digits : nat := 4300.

Definition decimal_digits (z : Z) : nat :=
  match z with
  | Z0 => 1
  | Zpos p | Zneg p => Decimal.nb_digits (Pos.to_uint p)
  end.

Section Each.
Context {A : Type} (f : A -> result unit).

(** [f] on every element in order, up to the first error. *)
Fixpoint each (l : list A) : result unit :=
  match l with
  | [] => ok tt
  | a :: l' => _ <- f a ;; each l'
  end.

End Each.

(** [str(v)], or [v] in a replacement field of an f-string, where [room]
    levels of lists and dicts can still be entered. *)
Fixpoint str (room : nat) (v : value) {struct v} : result unit :=
  match v with
  | VInt z =>
      if decimal_digits z <=? int_max_str_digits then ok tt
      else raise ValueError
  | VList l =>
      match room with
      | O => raise RecursionError
      | S room' => each (str room') l
      end
  | VDict d =>
      match room with
      | O => raise RecursionError
      | S room' =>
          each (fun kv : string * value => str room' (snd kv)) d
      end
  | _ => ok tt
  end.

(** How much of the recursion limit is left depends on the place of the
    call.  The program builds texts from values in three kinds of places:
    in a method of [SSHTunnel], in a handler of the main window, and in
    the functions of the main window that fill a row of the tree view. *)
Class Interpreter : Type := {
  room_of_method : nat;
  room_of_handler : nat;
  room_of_row : nat
}.

Definition returns {A} (r : result A) : bool :=
  match r with
  | inl _ => false
  | inr _ => true
  end.

Class JSON : Type := {
  json_dumps : value -> string;
  json_loads : string -> result value
}.

(** What the code relies on: [json.dumps] writes ASCII text (its default
    [ensure_ascii=True]) that [json.loads] reads back as an equal value, and
    what [json.loads] raises on a text is [JSONDecodeError], [RecursionError]
    for text that is nested too deeply, or [ValueError] for a number of more
    than 4300 digits. *)
Definition JSON_contract (J : JSON) : Prop :=
  (forall v, wf_value v = true ->
     ascii_only (json_dumps v) = true /\ json_loads (json_dumps v) = ok v)
  /\ (forall s e, json_loads s = raise e ->
        e = JSONDecodeError \/ e = RecursionError \/ e = ValueError).

(** ** The random source ([os.urandom]) *)

Class Entropy : Type := {
  rng : Type;
  urandom : nat -> rng -> bytes * rng
}.

(** [os.urandom(n)] returns [n] bytes. *)
Definition Entropy_contract (E : Entropy) : Prop :=
  forall n g, length (fst (urandom n g)) = n.

(** ** src/encryption.py *)

Section Encryption.
Context {C : BlockCipher} {H : HashFunction} {E : Entropy}.

(** [derive_key(password, salt, length=32)]; [length] is [None] when the
    caller leaves it out. *)
Definition derive_key (password : string) (salt : bytes)
           (length : option nat) : bytes :=
  let length := match length with Some n => n | None => 32 end in
  kdf.PBKDF2HMAC length salt 100000 (str_encode password).

(** [encrypt(message, password)]; the random source is threaded. *)
Definition encrypt (message password : string) (g : rng) : result string * rng :=
  let (salt, g1) := urandom 16 g in
  let key := derive_key password salt None in
  let (iv, g2) := urandom 16 g1 in
  let padded_message := padding.pad (str_encode message) in
  (cipher <- ciphers.Cipher key iv ;;
   ciphertext <- ciphers.encryptor cipher padded_message ;;
   bytes_decode (base64.b64encode (salt ++ iv ++ ciphertext)),
   g2).

(** [decrypt(encrypted_message, password)] *)
Definition decrypt (encrypted_message password : string) : result string :=
  encrypted_data <- base64.b64decode encrypted_message ;;
  let salt := firstn 16 encrypted_data in
  let iv := firstn 16 (skipn 16 encrypted_data) in
  let ciphertext := skipn 32 encrypted_data in
  let key := derive_key password salt None in
  cipher <- ciphers.Cipher key iv ;;
  padded_message <- ciphers.decryptor cipher ciphertext ;;
  message <- padding.unpad padded_message ;;
  bytes_decode message.

End Encryption.

(** ** The SSH forwarding library ([sshtunnel.SSHTunnelForwarder]) *)

(** A forwarder object is a [handle]; the state of the library and of the
    network behind it is a [network]. *)
Class SSHForwarding : Type := {
  handle : Type;
  network : Type;
  SSHTunnelForwarder :
    forall (ssh_address_or_host remote_bind_address local_bind_address : value * value)
           (ssh_username ssh_password : value),
      network -> result handle * network;
  forwarder_start : handle -> network -> result unit * network;
  forwarder_stop : handle -> forall force : bool, network -> result unit * network;
  forwarder_is_active : handle -> network -> bool
}.


(** ** The file system ([pathlib.Path.write_text] / [read_text])

    A file system of files: a path holds a text, bytes that are no text,
    or nothing.  Reading a path that holds nothing raises
    [FileNotFoundError], reading bytes that are no text raises
    [UnicodeDecodeError].  A write replaces what the path holds.  The
    other errors of the operating system (a directory at the path, a
    missing parent directory, missing permissions) are no part of the
    model, so a write to it does not fail. *)

Inductive file : Type :=
| TextFile (data : string)
| BinaryFile.

Definition filesystem : Type := string -> option file.

Definition write_text (path data : string) (fs : filesystem) : filesystem :=
  fun p => if (p =? path)%string then Some (TextFile data) else fs p.

Definition read_text (path : string) (fs : filesystem) : result string :=
  match fs path with
  | Some (TextFile data) => ok data
  | Some BinaryFile => raise UnicodeDecodeError
  | None => raise FileNotFoundError
  end.

(** ** src/SSHTunnel.py *)

Section Tunnel.
Context {F : SSHForwarding} {I : Interpreter}.

(** An [SSHTunnel] object: its nine attributes, which hold whatever values
    they were given, and the forwarder [_tunnel] ([None] when there is
    none). *)
Record SSHTunnel : Type := {
  name : value;
  local_ip : value;
  local_port : value;
  host_ip : value;
  host_port : value;
  server_port : value;
  user : value;
  password : value;
  server_ip : value;
  _tunnel : option handle
}.

(** [self._tunnel = h] *)
Definition set_tunnel (self : SSHTunnel) (h : option handle) : SSHTunnel :=
  {| name := name self; local_ip := local_ip self;
     local_port := local_port self; host_ip := host_ip self;
     host_port := host_port self; server_port := server_port self;
     user := user self; password := password self;
     server_ip := server_ip self; _tunnel := h |}.

(** The constructor: [local_port], [host_ip], [host_port], [user] and
    [password] are required; [name] defaults to the empty string,
    [local_ip] to 127.0.0.1, [server_ip] to Python's [None] and
    [server_port] to 22.  An optional argument that is left out is [None]
    here. *)
Definition __init__ (local_port host_ip host_port user password : value)
           (name local_ip server_ip server_port : option value) : SSHTunnel :=
  let name := match name with Some v => v | None => VStr EmptyString end in
  let local_ip := match local_ip with Some v => v | None => VStr "127.0.0.1" end in
  let server_ip := match server_ip with Some v => v | None => VNone end in
  let server_port := match server_port with Some v => v | None => VInt 22 end in
  {| name := name; local_ip := local_ip; local_port := local_port;
     host_ip := host_ip; host_port := host_port; server_port := server_port;
     user := user; password := password;
     server_ip := if negb (truthy server_ip) then host_ip else server_ip;
     _tunnel := None |}.

Definition is_active (self : SSHTunnel) (w : network) : bool :=
  match _tunnel self with
  | None => false
  | Some h => forwarder_is_active h w
  end.

(** [__str__()]: the f-string over the eight attributes and
    [is_active()]; the attributes are written in the order of the text,
    and the first that cannot be written gives the error. *)
Definition __str__ (self : SSHTunnel) : result unit :=
  _ <- str room_of_method (name self) ;;
  _ <- str room_of_method (local_ip self) ;;
  _ <- str room_of_method (local_port self) ;;
  _ <- str room_of_method (host_ip self) ;;
  _ <- str room_of_method (host_port self) ;;
  _ <- str room_of_method (user self) ;;
  _ <- str room_of_method (server_ip self) ;;
  str room_of_method (server_port self).

(** The attributes that [__str__] writes can all be written. *)
Definition printable (self : SSHTunnel) : bool := returns (__str__ self).

(** [start()]: the result, the object afterwards and the network
    afterwards.  Each call of the logger builds [str(self)] first. *)
Definition start (self : SSHTunnel) (w : network)
  : result unit * SSHTunnel * network :=
  let '(created, self, w) :=
    match _tunnel self with
    | None =>
        match __str__ self with
        | inl e => (raise e, self, w)
        | inr _ =>
            let (r, w') :=
              SSHTunnelForwarder (server_ip self, server_port self)
                (host_ip self, host_port self) (local_ip self, local_port self)
                (user self) (password self) w in
            match r with
            | inl e => (raise e, self, w')
            | inr h => (ok tt, set_tunnel self (Some h), w')
            end
        end
    | Some _ => (ok tt, self, w)
    end in
  match created with
  | inl e => (raise e, self, w)
  | inr _ =>
      let (started, w) :=
        match _tunnel self with
        | Some h =>
            if negb (is_active self w) then
              match __str__ self with
              | inl e => (raise e, w)
              | inr _ => forwarder_start h w
              end
            else (ok tt, w)
        | None => (ok tt, w)
        end in
      match started with
      | inl e => (raise e, self, w)
      | inr _ => (__str__ self, self, w)
      end
  end.

(** [stop()] *)
Definition stop (self : SSHTunnel) (w : network)
  : result unit * SSHTunnel * network :=
  match __str__ self with
  | inl e => (raise e, self, w)
  | inr _ =>
      let (stopped, w') :=
        match _tunnel self with
        | Some h =>
            if is_active self w then forwarder_stop h true w else (ok tt, w)
        | None => (ok tt, w)
        end in
      match stopped with
      | inl e => (raise e, self, w')
      | inr _ => (__str__ (set_tunnel self None), set_tunnel self None, w')
      end
  end.

Definition to_dict (self : SSHTunnel) : value :=
  VDict [("name", name self); ("local_ip", local_ip self);
         ("local_port", local_port self); ("host_ip", host_ip self);
         ("host_port", host_port self); ("server_port", server_port self);
         ("user", user self); ("password", password self);
         ("server_ip", server_ip self)]%string.

Fixpoint lookup (k : string) (d : list (string * value)) : option value :=
  match d with
  | [] => None
  | (k', v) :: d' => if (k' =? k)%string then Some v else lookup k d'
  end.

Definition parameters : list string :=
  ["local_port"; "host_ip"; "host_port"; "user"; "password"; "name";
   "local_ip"; "server_ip"; "server_port"]%string.

(** The constructor called with the items of [d] as keyword arguments:
    [d] must be a mapping, every key must name a parameter and the five
    parameters without a default must be there. *)
Definition SSHTunnel_kwargs (d : value) : result SSHTunnel :=
  match d with
  | VDict kw =>
      if negb (forallb (fun kv : string * value =>
                          existsb (String.eqb (fst kv)) parameters) kw)
      then raise TypeError
      else
        match lookup "local_port" kw, lookup "host_ip" kw,
              lookup "host_port" kw, lookup "user" kw, lookup "password" kw with
        | Some lp, Some hi, Some hp, Some u, Some p =>
            ok (__init__ lp hi hp u p (lookup "name" kw) (lookup "local_ip" kw)
                  (lookup "server_ip" kw) (lookup "server_port" kw))
        | _, _, _, _, _ => raise TypeError
        end
  | _ => raise TypeError
  end.

(** The items of [for d in data]: the elements of a list, the keys of a
    dict; iterating a non-empty [str] yields strings, of which only the
    count matters here since the constructor call rejects each of them. *)
Definition iterate (data : value) : result (list value) :=
  match data with
  | VList l => ok l
  | VDict d => ok (map (fun kv : string * value => VStr (fst kv)) d)
  | VStr s => ok (map (fun c => VStr (String c EmptyString)) (list_ascii_of_string s))
  | _ => raise TypeError
  end.

Context {C : BlockCipher} {H : HashFunction} {E : Entropy} {J : JSON}.

(** [save_tunnels(tunnels, path, password)]; the file system and the
    random source are threaded. *)
Definition save_tunnels (tunnels : list SSHTunnel) (path password : string)
           (fs : filesystem) (g : rng) : result unit * filesystem * rng :=
  let data := VList (map to_dict tunnels) in
  let json_str := json_dumps data in
  let (json_enc, g') := encrypt json_str password g in
  match json_enc with
  | inl e => (raise e, fs, g')
  | inr json_enc => (ok tt, write_text path json_enc fs, g')
  end.

(** [load_tunnels(path, password)] *)
Definition load_tunnels (path password : string) (fs : filesystem)
  : result (list SSHTunnel) :=
  data <- read_text path fs ;;
  data <- decrypt data password ;;
  data <- json_loads data ;;
  items <- iterate data ;;
  mapM SSHTunnel_kwargs items.

End Tunnel.

(** ** The data model and the error taxonomy of the specification *)

Section DataModel.
Context {F : SSHForwarding}.

Definition is_str (v : value) : bool :=
  match v with VStr _ => true | _ => false end.

(** An integer in [1, 65535]. *)
Definition is_port (v : value) : bool :=
  match v with
  | VInt z => ((1 <=? z) && (z <=? 65535))%Z
  | _ => false
  end.

(** The port invariant of the data model. *)
Definition port_invariant (t : SSHTunnel) : bool :=
  is_port (local_port t) && is_port (host_port t) && is_port (server_port t).

(** A valid TunnelSpec: strings where the data model has strings, ports in
    range, and a [server_ip] that is not empty. *)
Definition valid_TunnelSpec (t : SSHTunnel) : bool :=
  is_str (name t) && is_str (local_ip t) && is_str (host_ip t)
  && is_str (user t) && is_str (password t)
  && is_str (server_ip t) && truthy (server_ip t)
  && port_invariant t.

(** The TunnelSpec of a Tunnel is its nine attributes; the Tunnel is in
    the state Inactive of the data model when it has no forwarder. *)
Definition inactive (t : SSHTunnel) : SSHTunnel := set_tunnel t None.

(** Equality of two TunnelSpecs, field for field. *)
Definition same_TunnelSpec (t' t : SSHTunnel) : Prop :=
  name t' = name t /\ local_ip t' = local_ip t
  /\ local_port t' = local_port t /\ host_ip t' = host_ip t
  /\ host_port t' = host_port t /\ server_port t' = server_port t
  /\ user t' = user t /\ password t' = password t
  /\ server_ip t' = server_ip t.

End DataModel.

(** The error classes of the specification, read on the raise sites; of
    [ValueError], which [str] raises too, the class is that of the parser,
    where [load_tunnels] raises it. *)
Inductive error_class : Type :=
| ConnectionError
| FormatError
| IntegrityError
| DeserializationError
| OtherError.

Definition classify (e : exception) : error_class :=
  match e with
  | Base64Error | InvalidIVSize _ | NotBlockMultiple => FormatError
  | InvalidPadding => IntegrityError
  | UnicodeDecodeError | JSONDecodeError | RecursionError | ValueError
  | TypeError => DeserializationError
  | ForwarderError _ => ConnectionError
  | InvalidKeySize _ | AttributeError | FileNotFoundError => OtherError
  end.

(** ** Stand-ins for the libraries

    Small implementations of the library interfaces: a fake forwarder that
    can be told to refuse a connection or a teardown, and simple primitives
    that meet the contracts above. *)

Module Fake.

Definition block_cipher : BlockCipher :=
  {| AES_encrypt_block := fun key block => xor_bytes block (firstn 16 key);
     AES_decrypt_block := fun key block => xor_bytes block (firstn 16 key) |}.

(** A 32-byte checksum: the message is absorbed 32 bytes at a time. *)
Definition mix (x : byte) : byte :=
  byte_of_N ((Byte.to_N x * 5 + 17) mod 256).

Fixpoint absorb (fuel : nat) (st m : bytes) : bytes :=
  match fuel with
  | 0 => st
  | S fuel' =>
      match m with
      | [] => st
      | _ :: _ =>
          absorb fuel'
            (map mix (xor_bytes st (firstn 32 m ++ repeat x00 32)))
            (skipn 32 m)
      end
  end.

Definition hash : HashFunction :=
  {| SHA256 := fun m => map mix (absorb (length m) (repeat x00 32) m) |}.

Definition entropy : Entropy :=
  {| rng := N;
     urandom := fun n g => (repeat (byte_of_N (g mod 256)) n, (g + 1)%N) |}.

(** The forwarders created so far are numbered; [active] lists the ones
    that are up. *)
Record fake_network : Type := {
  next_handle : nat;
  active : list nat;
  refuse_connect : bool;
  refuse_close : bool
}.

Definition forwarding : SSHForwarding :=
  {| handle := nat;
     network := fake_network;
     SSHTunnelForwarder := fun _ _ _ _ _ w =>
       (ok (next_handle w),
        {| next_handle := S (next_handle w); active := active w;
           refuse_connect := refuse_connect w;
           refuse_close := refuse_close w |});
     forwarder_start := fun h w =>
       if refuse_connect w
       then (raise (ForwarderError "Could not establish session to SSH gateway"), w)
       else (ok tt,
             {| next_handle := next_handle w; active := h :: active w;
                refuse_connect := refuse_connect w;
                refuse_close := refuse_close w |});
     forwarder_stop := fun h _ w =>
       if refuse_close w
       then (raise (ForwarderError "Socket is closed"), w)
       else (ok tt,
             {| next_handle := next_handle w;
                active := filter (fun h' => negb (Nat.eqb h' h)) (active w);
                refuse_connect := refuse_connect w;
                refuse_close := refuse_close w |});
     forwarder_is_active := fun h w => existsb (Nat.eqb h) (active w) |}.

(** A text codec for values: a tag per constructor, numbers in binary,
    the bytes of a string as eight binary digits each. *)
Fixpoint enc_pos (p : positive) : bytes :=
  match p with
  | xH => ["e"%byte]
  | xO p' => "0"%byte :: enc_pos p'
  | xI p' => "1"%byte :: enc_pos p'
  end.

Fixpoint dec_pos (s : bytes) : option (positive * bytes) :=
  match s with
  | [] => None
  | c :: r =>
      if Byte.eqb c "e" then Some (xH, r)
      else if Byte.eqb c "0" then
        match dec_pos r with Some (p, r') => Some (xO p, r') | None => None end
      else if Byte.eqb c "1" then
        match dec_pos r with Some (p, r') => Some (xI p, r') | None => None end
      else None
  end.

Definition enc_Z (z : Z) : bytes :=
  match z with
  | Z0 => ["z"%byte]
  | Zpos p => "+"%byte :: enc_pos p
  | Zneg p => "-"%byte :: enc_pos p
  end.

Definition dec_Z (s : bytes) : option (Z * bytes) :=
  match s with
  | [] => None
  | c :: r =>
      if Byte.eqb c "z" then Some (Z0, r)
      else if Byte.eqb c "+" then
        match dec_pos r with Some (p, r') => Some (Zpos p, r') | None => None end
      else if Byte.eqb c "-" then
        match dec_pos r with Some (p, r') => Some (Zneg p, r') | None => None end
      else None
  end.

Definition bit (b : bool) : byte := if b then "1"%byte else "0"%byte.
Definition unbit (c : byte) : bool := Byte.eqb c "1".

Definition enc_byte (b : byte) : bytes :=
  let '(b0, (b1, (b2, (b3, (b4, (b5, (b6, b7))))))) := Byte.to_bits b in
  [bit b0; bit b1; bit b2; bit b3; bit b4; bit b5; bit b6; bit b7].

Fixpoint enc_str (s : bytes) : bytes :=
  match s with
  | [] => ["q"%byte]
  | b :: s' => "c"%byte :: enc_byte b ++ enc_str s'
  end.

Fixpoint dec_str (s : bytes) : option (bytes * bytes) :=
  match s with
  | [] => None
  | c :: r =>
      if Byte.eqb c "q" then Some ([], r)
      else if Byte.eqb c "c" then
        match r with
        | b0 :: b1 :: b2 :: b3 :: b4 :: b5 :: b6 :: b7 :: r' =>
            match dec_str r' with
            | Some (bs, r'') =>
                Some (Byte.of_bits
                        (unbit b0, (unbit b1, (unbit b2, (unbit b3,
                        (unbit b4, (unbit b5, (unbit b6, unbit b7)))))))
                        :: bs, r'')
            | None => None
            end
        | _ => None
        end
      else None
  end.

Fixpoint enc (v : value) : bytes :=
  match v with
  | VNone => ["n"%byte]
  | VBool true => ["t"%byte]
  | VBool false => ["f"%byte]
  | VInt z => "i"%byte :: enc_Z z
  | VStr s => "s"%byte :: enc_str (list_byte_of_string s)
  | VList l =>
      "["%byte ::
        (fix enc_items (l : list value) : bytes :=
           match l with
           | [] => ["]"%byte]
           | v :: l' => enc v ++ enc_items l'
           end) l
  | VDict d =>
      "{"%byte ::
        (fix enc_pairs (d : list (string * value)) : bytes :=
           match d with
           | [] => ["}"%byte]
           | (k, v) :: d' =>
               enc_str (list_byte_of_string k) ++ enc v ++ enc_pairs d'
           end) d
  end.

Definition enc_items (l : list value) : bytes :=
  (fix enc_items (l : list value) : bytes :=
     match l with
     | [] => ["]"%byte]
     | v :: l' => enc v ++ enc_items l'
     end) l.

Definition enc_pairs (d : list (string * value)) : bytes :=
  (fix enc_pairs (d : list (string * value)) : bytes :=
     match d with
     | [] => ["}"%byte]
     | (k, v) :: d' =>
         enc_str (list_byte_of_string k) ++ enc v ++ enc_pairs d'
     end) d.

Fixpoint dec (fuel : nat) (s : bytes) : option (value * bytes) :=
  match fuel with
  | 0 => None
  | S fuel' =>
      match s with
      | [] => None
      | c :: r =>
          if Byte.eqb c "n" then Some (VNone, r)
          else if Byte.eqb c "t" then Some (VBool true, r)
          else if Byte.eqb c "f" then Some (VBool false, r)
          else if Byte.eqb c "i" then
            match dec_Z r with
            | Some (z, r') => Some (VInt z, r')
            | None => None
            end
          else if Byte.eqb c "s" then
            match dec_str r with
            | Some (bs, r') => Some (VStr (string_of_list_byte bs), r')
            | None => None
            end
          else if Byte.eqb c "[" then
            match dec_items fuel' r with
            | Some (l, r') => Some (VList l, r')
            | None => None
            end
          else if Byte.eqb c "{" then
            match dec_pairs fuel' r with
            | Some (d, r') => Some (VDict d, r')
            | None => None
            end
          else None
      end
  end
with dec_items (fuel : nat) (s : bytes) : option (list value * bytes) :=
  match fuel with
  | 0 => None
  | S fuel' =>
      match s with
      | [] => None
      | c :: r =>
          if Byte.eqb c "]" then Some ([], r)
          else
            match dec fuel' s with
            | Some (v, r1) =>
                match dec_items fuel' r1 with
                | Some (l, r2) => Some (v :: l, r2)
                | None => None
                end
            | None => None
            end
      end
  end
with dec_pairs (fuel : nat) (s : bytes) : option (list (string * value) * bytes) :=
  match fuel with
  | 0 => None
  | S fuel' =>
      match s with
      | [] => None
      | c :: r =>
          if Byte.eqb c "}" then Some ([], r)
          else
            match dec_str s with
            | Some (k, r0) =>
                match dec fuel' r0 with
                | Some (v, r1) =>
                    match dec_pairs fuel' r1 with
                    | Some (d, r2) => Some ((string_of_list_byte k, v) :: d, r2)
                    | None => None
                    end
                | None => None
                end
            | None => None
            end
      end
  end.

(** Decoding undoes encoding, with fuel beyond the length of the text. *)
Definition dec_enc_at (v : value) : Prop :=
  forall fuel r, length (enc v) < fuel -> dec fuel (enc v ++ r) = Some (v, r).

Definition json : JSON :=
  {| json_dumps := fun v => string_of_list_byte (enc v);
     json_loads := fun s =>
       let raw := list_byte_of_string s in
       match dec (S (length raw)) raw with
       | Some (v, []) => ok v
       | _ => raise JSONDecodeError
       end |}.

(** An interpreter a few calls below its recursion limit of 1000. *)
Definition interpreter : Interpreter :=
  {| room_of_method := 980; room_of_handler := 982; room_of_row := 979 |}.

End Fake.

(** The scenarios below run on this interpreter. *)
#[global] Existing Instance Fake.interpreter.

(** ** The concrete scenario of the specification *)

Module Scenario.

(** The tunnel named db of the specification. *)
Definition db : @SSHTunnel Fake.forwarding :=
  __init__ (VInt 5432) (VStr "10.0.0.5") (VInt 5432) (VStr "alice")
    (VStr "secret") (Some (VStr "db")) (Some (VStr "127.0.0.1"))
    (Some (VStr "bastion.example.com")) (Some (VInt 22)).

Definition session_file : string := "session.json.enc".

Definition empty_fs : filesystem := fun _ => None.

Definition network0 : Fake.fake_network :=
  {| Fake.next_handle := 0; Fake.active := [];
     Fake.refuse_connect := false; Fake.refuse_close := false |}.



End Scenario.


(** ** What a reconstruction keeps

    [SSHTunnel] called with the dictionary of a tunnel gives the tunnel
    below: the attributes as they are, the [server_ip] defaulted again, and
    no forwarder. *)

Section Reconstruction.
Context {F : SSHForwarding}.


End Reconstruction.

(** [k] NUL characters. *)
Fixpoint nuls (k : nat) : string :=
  match k with
  | 0 => EmptyString
  | S k' => String "000" (nuls k')
  end.

(** A character that [base64.b64decode] passes over: an ASCII character
    that is neither of the alphabet nor the pad character. *)
Definition passed_over (c : ascii) : bool :=
  let b := byte_of_ascii c in
  base64.is_ascii b && negb (Byte.eqb b base64.pad_char)
  && match base64.a2b b with None => true | Some _ => false end.

(** ** forms/tunnel_ui.py

    The form of a tunnel: the texts of its line edits and the values of
    its spin boxes, and the tunnel it was opened on, if any. *)

Section Form.
Context {F : SSHForwarding}.

Record TunnelUI : Type := {
  _orig_tunnel : option SSHTunnel;
  name_line_edit : string;
  local_ip_line_edit : string;
  local_port_spin : Z;
  dest_ip_line_edit : string;
  dest_port_spin : Z;
  server_ip_line_edit : string;
  server_port_spin : Z;
  user_line_edit : string;
  password_line_edit : string
}.

(** The three spin boxes are set up with minimum 1 and maximum 65535; a
    spin box holds a value of its range. *)
Definition spin_in_range (z : Z) : bool := ((1 <=? z) && (z <=? 65535))%Z.

Definition spins_in_range (self : TunnelUI) : bool :=
  spin_in_range (local_port_spin self)
  && spin_in_range (dest_port_spin self)
  && spin_in_range (server_port_spin self).

Definition get_tunnel (self : TunnelUI) : SSHTunnel :=
  __init__ (VInt (local_port_spin self)) (VStr (dest_ip_line_edit self))
    (VInt (dest_port_spin self)) (VStr (user_line_edit self))
    (VStr (password_line_edit self)) (Some (VStr (name_line_edit self)))
    (Some (VStr (local_ip_line_edit self)))
    (Some (VStr (server_ip_line_edit self)))
    (Some (VInt (server_port_spin self))).

(** The nine assignments of [update_tunnel], on the object [t]. *)
Definition update_attributes (self : TunnelUI) (t : SSHTunnel) : SSHTunnel :=
  {| name := VStr (name_line_edit self);
     local_ip := VStr (local_ip_line_edit self);
     local_port := VInt (local_port_spin self);
     host_ip := VStr (dest_ip_line_edit self);
     host_port := VInt (dest_port_spin self);
     server_port := VInt (server_port_spin self);
     user := VStr (user_line_edit self);
     password := VStr (password_line_edit self);
     server_ip := VStr (server_ip_line_edit self);
     _tunnel := _tunnel t |}.

(** [update_tunnel()]: the original tunnel after the call; there is none
    when the form was opened without a tunnel, and the first assignment
    fails. *)
Definition update_tunnel (self : TunnelUI) : option SSHTunnel :=
  match _orig_tunnel self with
  | Some t => Some (update_attributes self t)
  | None => None
  end.

End Form.

(** ** forms/main_ui.py

    The handlers of the main window, on the part of its state that they
    share with the tunnels: the list [_tunnels_items], each item a tunnel
    and its check box, the network, the files, and the error dialogs shown
    so far.  Of the tree view what is kept is whether building or changing
    an item of a row raises. *)

(** The two calls on [QStandardItem] that take an attribute of a tunnel:
    the constructor and [setText].  The item is not modelled, only whether
    the call raises. *)
Class TreeView : Type := {
  QStandardItem : value -> result unit;
  setText : value -> result unit
}.


(** [error_dialog.show_error]: the handlers show the text of an error
    after the name of the tunnel, [log_errors] shows the text alone. *)
Inductive dialog : Type :=
| ErrorDialog (tunnel_name : option value) (e : exception).

(** The decorator [log_errors]: an error of the decorated function is
    shown and not handed on; the call then returns [None]. *)
Definition log_errors {A} (r : result A) (shown : list dialog)
  : option A * list dialog :=
  match r with
  | inl e => (None, shown ++ [ErrorDialog None e])
  | inr a => (Some a, shown)
  end.

Section MainWindow.
Context {F : SSHForwarding} {I : Interpreter} {Q : TreeView}.

(** A [TunnelItem]: the tunnel and the state of its check box;
    [check_box] is [None] when [_add_tree_item] returned [None]. *)
Record TunnelItem : Type := {
  tunnel : SSHTunnel;
  check_box : option bool
}.

(** [error_dialog.show_error(f"{tunnel.name}: {e}")]: the text is built
    first. *)
Definition show_error_of (t : SSHTunnel) (e : exception)
           (shown : list dialog) : result (list dialog) :=
  _ <- str room_of_handler (name t) ;;
  ok (shown ++ [ErrorDialog (Some (name t)) e]).

(** [except Exception as e: error_dialog.show_error(...)] after a call
    that returned [r]. *)
Definition except_show (t : SSHTunnel) (r : result unit)
           (shown : list dialog) : result (list dialog) :=
  match r with
  | inl e => show_error_of t e shown
  | inr _ => ok shown
  end.

(** [check_box.setChecked(b)] *)
Definition setChecked (check_box : option bool) (b : bool)
  : result (option bool) :=
  match check_box with
  | Some _ => ok (Some b)
  | None => raise AttributeError
  end.


(** [_toggle_tunnel(tunnel, checkBox, value)], under [log_errors];
    [checked] is the new value of the check box, which is the state the
    click has left it in. *)
Definition _toggle_tunnel (t : SSHTunnel) (checked : bool) (w : network)
           (shown : list dialog) : TunnelItem * network * list dialog :=
  let '(r, t', w') :=
    if checked then
      if negb (is_active t w) then start t w else (ok tt, t, w)
    else
      if is_active t w then stop t w else (ok tt, t, w) in
  match except_show t' r shown with
  | inl e =>
      ({| tunnel := t'; check_box := Some checked |}, w',
       shown ++ [ErrorDialog None e])
  | inr shown' =>
      ({| tunnel := t'; check_box := Some (is_active t' w') |}, w', shown')
  end.

(** [_on_start_all_button_click], under [log_errors]: an error that
    leaves the loop is shown and the tunnels after it are not reached. *)
Fixpoint _on_start_all_button_click (items : list TunnelItem) (w : network)
         (shown : list dialog) : list TunnelItem * network * list dialog :=
  match items with
  | [] => ([], w, shown)
  | tunnel_item :: rest =>
      let '(r, t', w1) := start (tunnel tunnel_item) w in
      let item1 := {| tunnel := t'; check_box := check_box tunnel_item |} in
      match except_show t' r shown with
      | inl e => (item1 :: rest, w1, shown ++ [ErrorDialog None e])
      | inr shown1 =>
          match setChecked (check_box tunnel_item) (is_active t' w1) with
          | inl e => (item1 :: rest, w1, shown1 ++ [ErrorDialog None e])
          | inr box =>
              let '(rest', w2, shown2) :=
                _on_start_all_button_click rest w1 shown1 in
              ({| tunnel := t'; check_box := box |} :: rest', w2, shown2)
          end
      end
  end.




(** [_add_tree_item(tunnel)], under [log_errors]: the items of the row
    are built in the order of the source, the item of a text made by
    [str] like that of the empty text; the result is the new check box,
    which is not checked, or [None]. *)
Definition _add_tree_item (t : SSHTunnel) (shown : list dialog)
  : option bool * list dialog :=
  log_errors
    (_ <- QStandardItem (VStr EmptyString) ;;
     _ <- QStandardItem (name t) ;;
     _ <- QStandardItem (local_ip t) ;;
     _ <- str room_of_row (local_port t) ;;
     _ <- QStandardItem (host_ip t) ;;
     _ <- str room_of_row (host_port t) ;;
     _ <- QStandardItem (server_ip t) ;;
     _ <- str room_of_row (server_port t) ;;
     ok false)
    shown.

(** [_add_tunnel(tunnel)] *)
Definition _add_tunnel (t : SSHTunnel)
           (st : list TunnelItem * list dialog)
  : list TunnelItem * list dialog :=
  let (check_box, shown') := _add_tree_item t (snd st) in
  (fst st ++ [{| tunnel := t; check_box := check_box |}], shown').


Context {C : BlockCipher} {H : HashFunction} {E : Entropy} {J : JSON}.




End MainWindow.

(** A tree view that takes texts and nothing else. *)
Module FakeView.

Definition take_text (v : value) : result unit :=
  match v with VStr _ => ok tt | _ => raise TypeError end.

Definition tree_view : TreeView :=
  {| QStandardItem := take_text; setText := take_text |}.

End FakeView.

(** A form with the server field left empty, and the tunnel that
    [update_tunnel] makes of it. *)
Module Edited.

Definition form : @TunnelUI Fake.forwarding :=
  {| _orig_tunnel := Some Scenario.db;
     name_line_edit := "db"; local_ip_line_edit := "127.0.0.1";
     local_port_spin := 5432; dest_ip_line_edit := "10.0.0.5";
     dest_port_spin := 5432; server_ip_line_edit := EmptyString;
     server_port_spin := 22; user_line_edit := "alice";
     password_line_edit := "secret" |}.


End Edited.

(** Tunnels with an attribute that is no text or cannot be written as
    text: one whose name is the number of 4301 digits, one whose local
    port is a list nested a thousand deep, and one whose name is a
    list. *)
Module Unwritable.

Definition number : Z := (10 ^ 4300)%Z.

Fixpoint nest (n : nat) : value :=
  match n with
  | 0 => VList []
  | S n' => VList [nest n']
  end.

Definition numbered : @SSHTunnel Fake.forwarding :=
  {| name := VInt number; local_ip := local_ip Scenario.db;
     local_port := local_port Scenario.db; host_ip := host_ip Scenario.db;
     host_port := host_port Scenario.db;
     server_port := server_port Scenario.db; user := user Scenario.db;
     password := password Scenario.db; server_ip := server_ip Scenario.db;
     _tunnel := None |}.

Definition nested : @SSHTunnel Fake.forwarding :=
  {| name := name Scenario.db; local_ip := local_ip Scenario.db;
     local_port := nest 1000; host_ip := host_ip Scenario.db;
     host_port := host_port Scenario.db;
     server_port := server_port Scenario.db; user := user Scenario.db;
     password := password Scenario.db; server_ip := server_ip Scenario.db;
     _tunnel := None |}.

(** A tunnel whose name is a list, as a session file can hold it. *)
Definition listed : @SSHTunnel Fake.forwarding :=
  {| name := VList [VStr "db"]; local_ip := local_ip Scenario.db;
     local_port := local_port Scenario.db; host_ip := host_ip Scenario.db;
     host_port := host_port Scenario.db;
     server_port := server_port Scenario.db; user := user Scenario.db;
     password := password Scenario.db; server_ip := server_ip Scenario.db;
     _tunnel := None |}.

End Unwritable.
(** * Properties *)

(** ** Bytes *)

Lemma byte_of_N_to_N (b : byte) : byte_of_N (Byte.to_N b) = b.
Proof. unfold byte_of_N. now rewrite Byte.of_to_N. Qed.

Lemma to_N_byte_of_N (n : N) : (n < 256)%N -> Byte.to_N (byte_of_N n) = n.
Proof.
  intros Hn. unfold byte_of_N.
  destruct (Byte.of_N n) as [b|] eqn:Hb.
  - now apply Byte.to_of_N.
  - apply Byte.of_N_None_iff in Hb. lia.
Qed.

Lemma to_N_lt_256 (b : byte) : (Byte.to_N b < 256)%N.
Proof. pose proof (Byte.to_N_bounded b). lia. Qed.

Lemma xor_byte_cancel (a b : byte) : xor_byte (xor_byte a b) b = a.
Proof.
  unfold xor_byte.
  destruct (Byte.to_bits a) as (a0 & a1 & a2 & a3 & a4 & a5 & a6 & a7) eqn:Ha.
  destruct (Byte.to_bits b) as (b0 & b1 & b2 & b3 & b4 & b5 & b6 & b7) eqn:Hb.
  rewrite Byte.to_bits_of_bits.
  repeat rewrite xorb_assoc, xorb_nilpotent, xorb_false_r.
  rewrite <- Ha. apply Byte.of_bits_to_bits.
Qed.

Lemma xor_bytes_length (a b : bytes) :
  length (xor_bytes a b) = Nat.min (length a) (length b).
Proof.
  revert b; induction a as [|x a IH]; intros [|y b]; simpl; auto.
Qed.

Lemma xor_bytes_cancel (a b : bytes) :
  length a <= length b -> xor_bytes (xor_bytes a b) b = a.
Proof.
  revert b; induction a as [|x a IH]; intros [|y b] Hl; simpl in *; try lia; auto.
  rewrite xor_byte_cancel, IH by lia. reflexivity.
Qed.

(** A property checked on every number below a bound holds below it. *)
Lemma N_forall_below (P : N -> bool) (k : nat) :
  forallb P (map N.of_nat (seq 0 k)) = true ->
  forall n, (n < N.of_nat k)%N -> P n = true.
Proof.
  intros Hall n Hn. rewrite forallb_forall in Hall. apply Hall.
  rewrite in_map_iff. exists (N.to_nat n). split; [lia|].
  apply in_seq. lia.
Qed.

Lemma N_forall_below2 (P : N -> N -> bool) (k : nat) :
  forallb (fun a => forallb (P a) (map N.of_nat (seq 0 k)))
          (map N.of_nat (seq 0 k)) = true ->
  forall a b, (a < N.of_nat k)%N -> (b < N.of_nat k)%N -> P a b = true.
Proof.
  intros Hall a b Ha Hb.
  apply (N_forall_below (P a) k); [|exact Hb].
  apply (N_forall_below (fun a => forallb (P a) (map N.of_nat (seq 0 k))) k);
    assumption.
Qed.

(** ** base64 *)

Create HintDb b64.

Module base64_facts.
Import base64.

Ltac by_bytes P :=
  first [ apply N.eqb_eq | idtac ];
  apply (N_forall_below2 P 256); [vm_compute; reflexivity | assumption ..].

Lemma b2a_a2b (n : N) :
  (n < 64)%N -> a2b (b2a n) = Some n /\ Byte.eqb (b2a n) pad_char = false.
Proof.
  intros Hn.
  pose (P := fun n => match a2b (b2a n) with
                      | Some m => N.eqb m n && negb (Byte.eqb (b2a n) pad_char)
                      | None => false
                      end).
  assert (HP : P n = true).
  { apply (N_forall_below P 64); [vm_compute; reflexivity | exact Hn]. }
  unfold P in HP. destruct (a2b (b2a n)) as [m|]; [|discriminate].
  apply andb_prop in HP as [H1 H2]. apply N.eqb_eq in H1. subst m.
  split; [reflexivity|]. now destruct (Byte.eqb (b2a n) pad_char).
Qed.

Lemma enc_bounds a b :
  (a < 256)%N -> (b < 256)%N ->
  N.ltb (enc1 a) 64 && N.ltb (enc2 a b) 64 && N.ltb (enc3 a b) 64
    && N.ltb (enc4 a) 64 = true.
Proof.
  intros Ha Hb.
  by_bytes (fun a b => N.ltb (enc1 a) 64 && N.ltb (enc2 a b) 64
                       && N.ltb (enc3 a b) 64 && N.ltb (enc4 a) 64).
Qed.

Lemma dec_byte1 a b :
  (a < 256)%N -> (b < 256)%N ->
  N.lor (N.shiftl (enc1 a) 2) (N.shiftr (enc2 a b) 4) = a.
Proof.
  intros Ha Hb.
  by_bytes (fun a b => N.eqb (N.lor (N.shiftl (enc1 a) 2) (N.shiftr (enc2 a b) 4)) a).
Qed.

Lemma dec_left2 a b :
  (a < 256)%N -> (b < 256)%N -> N.land (enc2 a b) 15 = N.shiftr b 4.
Proof.
  intros Ha Hb.
  by_bytes (fun a b => N.eqb (N.land (enc2 a b) 15) (N.shiftr b 4)).
Qed.

Lemma dec_byte2 b c :
  (b < 256)%N -> (c < 256)%N ->
  N.lor (N.shiftl (N.shiftr b 4) 4) (N.shiftr (enc3 b c) 2) = b.
Proof.
  intros Hb Hc.
  by_bytes (fun b c => N.eqb (N.lor (N.shiftl (N.shiftr b 4) 4)
                                     (N.shiftr (enc3 b c) 2)) b).
Qed.

Lemma dec_byte3 b c :
  (b < 256)%N -> (c < 256)%N ->
  N.lor (N.shiftl (N.land (enc3 b c) 3) 6) (enc4 c) = c.
Proof.
  intros Hb Hc.
  by_bytes (fun b c => N.eqb (N.lor (N.shiftl (N.land (enc3 b c) 3) 6) (enc4 c)) c).
Qed.

(** One step of the decoding loop on a character of the alphabet. *)
Lemma a2b_loop_step (n : N) (s : bytes) (q lc p : N) (out : bytes) :
  (n < 64)%N ->
  a2b_loop (b2a n :: s) q lc p out =
    if (q =? 0)%N then a2b_loop s 1%N n 0%N out
    else if (q =? 1)%N then
      a2b_loop s 2%N (N.land n 15) 0%N
        (out ++ [byte_of_N (N.lor (N.shiftl lc 2) (N.shiftr n 4))])
    else if (q =? 2)%N then
      a2b_loop s 3%N (N.land n 3) 0%N
        (out ++ [byte_of_N (N.lor (N.shiftl lc 4) (N.shiftr n 2))])
    else
      a2b_loop s 0%N 0%N 0%N (out ++ [byte_of_N (N.lor (N.shiftl lc 6) n)]).
Proof.
  intros Hn. destruct (b2a_a2b n Hn) as [Ha Hp].
  cbn [a2b_loop]. rewrite Hp, Ha. reflexivity.
Qed.

Lemma enc1_lt a : (a < 256)%N -> (enc1 a < 64)%N.
Proof.
  intros Ha. pose proof (enc_bounds a a Ha Ha) as Hb.
  repeat (apply andb_prop in Hb as [Hb ?]). now apply N.ltb_lt.
Qed.

Lemma enc2_lt a b : (a < 256)%N -> (b < 256)%N -> (enc2 a b < 64)%N.
Proof.
  intros Ha Hb. pose proof (enc_bounds a b Ha Hb) as Hx.
  repeat (apply andb_prop in Hx as [Hx ?]). now apply N.ltb_lt.
Qed.

Lemma enc3_lt a b : (a < 256)%N -> (b < 256)%N -> (enc3 a b < 64)%N.
Proof.
  intros Ha Hb. pose proof (enc_bounds a b Ha Hb) as Hx.
  repeat (apply andb_prop in Hx as [Hx ?]). now apply N.ltb_lt.
Qed.

Lemma enc4_lt a : (a < 256)%N -> (enc4 a < 64)%N.
Proof.
  intros Ha. pose proof (enc_bounds a a Ha Ha) as Hb.
  repeat (apply andb_prop in Hb as [Hb ?]). now apply N.ltb_lt.
Qed.

#[global] Hint Resolve to_N_lt_256 enc1_lt enc2_lt enc3_lt enc4_lt : b64.

Lemma a2b_loop_b64encode (n : nat) :
  forall data out, length data <= n ->
    a2b_loop (b64encode data) 0 0 0 out = ok (out ++ data).
Proof.
  induction n as [|n IH]; intros data out Hlen.
  - destruct data; [|simpl in Hlen; lia]. simpl. now rewrite app_nil_r.
  - destruct data as [|x [|y [|z rest]]].
    + simpl. now rewrite app_nil_r.
    + cbn [b64encode].
      assert (N0lt : (0 < 256)%N) by lia.
      rewrite !a2b_loop_step by auto with b64. cbn [N.eqb Pos.eqb].
      rewrite dec_byte1 by auto with b64. rewrite byte_of_N_to_N.
      reflexivity.
    + cbn [b64encode].
      assert (N0lt : (0 < 256)%N) by lia.
      rewrite !a2b_loop_step by auto with b64. cbn [N.eqb Pos.eqb].
      rewrite dec_byte1, dec_left2, dec_byte2 by auto with b64.
      rewrite !byte_of_N_to_N, <- app_assoc. reflexivity.
    + cbn [b64encode].
      rewrite !a2b_loop_step by auto with b64. cbn [N.eqb Pos.eqb].
      rewrite dec_byte1, dec_left2, dec_byte2, dec_byte3 by auto with b64.
      rewrite !byte_of_N_to_N. rewrite IH by (simpl in Hlen; lia).
      rewrite <- !app_assoc. reflexivity.
Qed.

End base64_facts.

Module base64_text.
Import base64 base64_facts.

Example b64encode_ABCD :
  string_of_list_byte (b64encode ["A"; "B"; "C"; "D"]%byte) = "QUJDRA=="%string.
Proof. reflexivity. Qed.

Example b64decode_QUI :
  b64decode "QUI=" = ok ["A"; "B"]%byte.
Proof. reflexivity. Qed.

(** Characters outside the alphabet are skipped. *)
Example b64decode_skips :
  b64decode "QU JD" = ok ["A"; "B"; "C"]%byte.
Proof. reflexivity. Qed.

Example b64decode_incorrect_padding :
  b64decode "QQ=" = raise Base64Error /\ b64decode "Q" = raise Base64Error.
Proof. split; reflexivity. Qed.

Lemma b2a_is_ascii (n : N) : (n < 64)%N -> is_ascii (b2a n) = true.
Proof.
  intros Hn.
  apply (N_forall_below (fun n => is_ascii (b2a n)) 64);
    [vm_compute; reflexivity | exact Hn].
Qed.

Lemma b64encode_is_ascii (n : nat) :
  forall data, length data <= n -> forallb is_ascii (b64encode data) = true.
Proof.
  assert (N0lt : (0 < 256)%N) by lia.
  induction n as [|n IH]; intros data Hlen.
  - destruct data; [reflexivity | simpl in Hlen; lia].
  - destruct data as [|x [|y [|z rest]]]; cbn [b64encode forallb].
    + reflexivity.
    + rewrite !b2a_is_ascii by auto with b64. reflexivity.
    + rewrite !b2a_is_ascii by auto with b64. reflexivity.
    + rewrite !b2a_is_ascii by auto with b64.
      rewrite IH by (simpl in Hlen; lia). reflexivity.
Qed.

Example utf8_valid_examples :
  utf8_valid [xc3; xa9] = true            (* U+00E9 *)
  /\ utf8_valid [xe2; x82; xac] = true     (* U+20AC *)
  /\ utf8_valid [xf0; x9f; x98; x80] = true (* U+1F600 *)
  /\ utf8_valid [xc3] = false              (* truncated *)
  /\ utf8_valid [xc0; x80] = false         (* overlong *)
  /\ utf8_valid [xed; xa0; x80] = false    (* a surrogate *)
  /\ utf8_valid [xf4; x90; x80; x80] = false. (* beyond U+10FFFF *)
Proof. repeat split. Qed.

Lemma utf8_valid_ascii (s : bytes) :
  forallb is_ascii s = true -> utf8_valid s = true.
Proof.
  induction s as [|b s IH]; [reflexivity|].
  cbn [forallb utf8_valid]. intros Hs. apply andb_prop in Hs as [Hb Hs].
  unfold is_ascii in Hb. apply N.ltb_lt in Hb.
  replace (in_range 0 127 b) with true; [auto|].
  symmetry. unfold in_range. apply andb_true_intro.
  split; apply N.leb_le; lia.
Qed.

(** The encoding is ASCII text, which decodes to the encoded bytes. *)
Lemma bytes_decode_b64encode (data : bytes) :
  bytes_decode (b64encode data) = ok (string_of_list_byte (b64encode data)).
Proof.
  pose proof (b64encode_is_ascii (length data) data (le_n _)) as Hascii.
  unfold bytes_decode. now rewrite utf8_valid_ascii.
Qed.

Lemma b64decode_b64encode (data : bytes) :
  b64decode (string_of_list_byte (b64encode data)) = ok data.
Proof.
  pose proof (b64encode_is_ascii (length data) data (le_n _)) as Hascii.
  unfold b64decode. rewrite list_byte_of_string_of_list_byte, Hascii.
  now rewrite (a2b_loop_b64encode (length data)).
Qed.

End base64_text.

(** ** PKCS#7 *)

Module padding_facts.
Import padding.

Example pad_three :
  pad ["A"; "B"; "C"]%byte = ["A"; "B"; "C"]%byte ++ repeat x0d 13.
Proof. reflexivity. Qed.

(** A whole block of data gets a whole block of padding. *)
Example pad_block : pad (repeat x41 16) = repeat x41 16 ++ repeat x10 16.
Proof. reflexivity. Qed.

Example unpad_rejects :
  unpad [] = raise InvalidPadding
  /\ unpad (repeat x00 16) = raise InvalidPadding
  /\ unpad (repeat x11 16) = raise InvalidPadding
  /\ unpad (repeat x41 14 ++ [x03; x02]) = raise InvalidPadding
  /\ unpad (repeat x41 15) = raise InvalidPadding.
Proof. repeat split. Qed.

Example unpad_accepts :
  unpad (repeat x41 14 ++ [x02; x02]) = ok (repeat x41 14).
Proof. reflexivity. Qed.

Lemma pad_size_range (n : nat) :
  1 <= block_size - n mod block_size <= block_size.
Proof.
  unfold block_size. pose proof (Nat.mod_upper_bound n 16). lia.
Qed.

Lemma pad_length (data : bytes) : length (pad data) mod block_size = 0.
Proof.
  unfold pad. rewrite length_app, repeat_length.
  pose proof (pad_size_range (length data)) as Hr.
  unfold block_size in *.
  pose proof (Nat.div_mod_eq (length data) 16) as Hd.
  replace (length data + (16 - length data mod 16))
    with ((length data / 16 + 1) * 16) by lia.
  apply Nat.Div0.mod_mul.
Qed.

Lemma pad_length_pos (data : bytes) : 0 < length (pad data).
Proof.
  unfold pad. rewrite length_app, repeat_length.
  pose proof (pad_size_range (length data)). lia.
Qed.

Lemma last_repeat {A} (x d : A) (n : nat) (l : list A) :
  0 < n -> last (l ++ repeat x n) d = x.
Proof.
  intros Hn. destruct n as [|n]; [lia|].
  replace (repeat x (S n)) with (repeat x n ++ [x]).
  - rewrite app_assoc. apply last_last.
  - change [x] with (repeat x 1). rewrite <- repeat_app.
    f_equal. lia.
Qed.

Lemma forallb_repeat {A} (f : A -> bool) (x : A) (n : nat) :
  f x = true -> forallb f (repeat x n) = true.
Proof. intros Hx. induction n; simpl; [reflexivity | now rewrite Hx]. Qed.

Lemma unpad_pad (data : bytes) : unpad (pad data) = ok data.
Proof.
  pose proof (pad_size_range (length data)) as Hr.
  pose proof (Nat.div_mod_eq (length data) block_size) as Hd.
  unfold unpad, pad.
  set (p := block_size - length data mod block_size) in *.
  set (pb := byte_of_N (N.of_nat p)).
  set (k := length data / block_size) in *.
  assert (Hlen : length (data ++ repeat pb p) = (k + 1) * block_size).
  { rewrite length_app, repeat_length. unfold block_size in *. lia. }
  rewrite Hlen. rewrite Nat.div_mul by (unfold block_size; lia).
  replace (k + 1 - 1) with k by lia.
  assert (Hk : k * block_size <= length data) by (unfold block_size in *; lia).
  rewrite firstn_app, skipn_app.
  replace (k * block_size - length data) with 0 by lia.
  rewrite firstn_O, skipn_O, app_nil_r.
  assert (Hbuf : length (skipn (k * block_size) data ++ repeat pb p) = block_size).
  { rewrite length_app, length_skipn, repeat_length. unfold block_size in *. lia. }
  rewrite Hbuf, Nat.eqb_refl. cbn [negb].
  assert (Hlast : last (skipn (k * block_size) data ++ repeat pb p) x00 = pb).
  { apply last_repeat. lia. }
  assert (Hpb : N.to_nat (Byte.to_N pb) = p).
  { unfold pb. rewrite to_N_byte_of_N; unfold block_size in *; lia. }
  unfold check_pkcs7_padding. rewrite Hbuf, Hlast, Hpb.
  assert (Hskip : length (skipn (k * block_size) data) = block_size - p).
  { rewrite length_skipn. unfold block_size in *. lia. }
  rewrite skipn_app, firstn_app, Hskip, Nat.sub_diag, skipn_O, firstn_O.
  rewrite (skipn_all2 (n := block_size - p)) by (rewrite Hskip; apply le_n).
  rewrite (firstn_all2 (n := block_size - p)) by (rewrite Hskip; apply le_n).
  cbn [app]. rewrite forallb_repeat by (now apply Byte.byte_dec_lb).
  replace (1 <=? p) with true by (symmetry; apply Nat.leb_le; lia).
  replace (p <=? block_size) with true by (symmetry; apply Nat.leb_le; lia).
  cbn [andb negb]. rewrite app_nil_r, firstn_skipn. reflexivity.
Qed.

End padding_facts.

(** ** CBC *)

Module ciphers_facts.
Section WithCipher.
Import ciphers.
Context {C : BlockCipher}.
Hypothesis AES_ok : BlockCipher_contract C.

Lemma blocks_fuel_concat (fuel : nat) :
  forall data, length data <= fuel -> concat (blocks_fuel fuel data) = data.
Proof.
  induction fuel as [|fuel IH]; intros data Hlen.
  - destruct data; [reflexivity | simpl in Hlen; lia].
  - destruct data as [|x data]; [reflexivity|].
    cbn [blocks_fuel concat]. rewrite IH.
    + apply firstn_skipn.
    + rewrite length_skipn. simpl in *. lia.
Qed.

Lemma blocks_fuel_full (fuel : nat) :
  forall data, length data <= fuel -> length data mod 16 = 0 ->
    full_blocks (blocks_fuel fuel data).
Proof.
  induction fuel as [|fuel IH]; intros data Hlen Hmod.
  - constructor.
  - destruct data as [|x data]; [constructor|].
    cbn [blocks_fuel].
    assert (Hge : 16 <= length (x :: data)).
    { pose proof (Nat.div_mod_eq (length (x :: data)) 16) as Hd.
      rewrite Hmod in Hd. simpl length in *. lia. }
    constructor.
    + rewrite length_firstn. lia.
    + apply IH.
      * rewrite length_skipn. simpl in *. lia.
      * rewrite length_skipn.
        pose proof (Nat.div_mod_eq (length (x :: data)) 16) as Hd.
        rewrite Hmod in Hd.
        replace (length (x :: data) - 16)
          with ((length (x :: data) / 16 - 1) * 16) by lia.
        apply Nat.Div0.mod_mul.
Qed.

Lemma full_blocks_length (bs : list bytes) :
  full_blocks bs -> length (concat bs) = length bs * 16.
Proof.
  induction 1 as [|b bs Hb _ IH]; [reflexivity|].
  cbn [concat]. rewrite length_app, Hb, IH. simpl. lia.
Qed.

Lemma blocks_fuel_of_concat (bs : list bytes) :
  full_blocks bs ->
  forall fuel, length (concat bs) <= fuel -> blocks_fuel fuel (concat bs) = bs.
Proof.
  induction 1 as [|b bs Hb Hbs IH]; intros fuel Hfuel.
  - destruct fuel; reflexivity.
  - cbn [concat] in *. rewrite length_app, Hb in Hfuel.
    destruct fuel as [|fuel]; [lia|].
    cbn [blocks_fuel].
    destruct (b ++ concat bs) as [|x r] eqn:Hbr.
    { destruct b; [discriminate Hb | discriminate Hbr]. }
    rewrite <- Hbr.
    rewrite firstn_app, skipn_app, Hb, Nat.sub_diag.
    rewrite firstn_O, skipn_O, app_nil_r.
    rewrite firstn_all2, skipn_all2 by lia. cbn [app].
    rewrite IH by lia. reflexivity.
Qed.

Lemma cbc_encrypt_blocks_full (key : bytes) (bs : list bytes) :
  length key = 32 -> full_blocks bs ->
  forall prev, length prev = 16 ->
    full_blocks (cbc_encrypt_blocks key prev bs).
Proof.
  intros Hkey Hbs. induction Hbs as [|b bs Hb _ IH]; intros prev Hprev.
  - constructor.
  - cbn [cbc_encrypt_blocks].
    assert (Hx : length (xor_bytes b prev) = 16).
    { rewrite xor_bytes_length, Hb, Hprev. reflexivity. }
    destruct (AES_ok _ _ Hkey Hx) as [Hlen _].
    constructor; [exact Hlen | apply IH, Hlen].
Qed.

Lemma cbc_encrypt_blocks_count (key : bytes) (bs : list bytes) :
  forall prev, length (cbc_encrypt_blocks key prev bs) = length bs.
Proof. induction bs as [|b bs IH]; intros prev; simpl; auto. Qed.

Lemma cbc_decrypt_encrypt_blocks (key : bytes) (bs : list bytes) :
  length key = 32 -> full_blocks bs ->
  forall prev, length prev = 16 ->
    cbc_decrypt_blocks key prev (cbc_encrypt_blocks key prev bs) = bs.
Proof.
  intros Hkey Hbs. induction Hbs as [|b bs Hb _ IH]; intros prev Hprev.
  - reflexivity.
  - cbn [cbc_encrypt_blocks cbc_decrypt_blocks].
    assert (Hx : length (xor_bytes b prev) = 16).
    { rewrite xor_bytes_length, Hb, Hprev. reflexivity. }
    destruct (AES_ok _ _ Hkey Hx) as [Hlen Hinv].
    rewrite Hinv, xor_bytes_cancel by lia.
    rewrite IH by exact Hlen. reflexivity.
Qed.

Lemma Cipher_ok (key iv : bytes) :
  length key = 32 -> length iv = 16 ->
  Cipher key iv = ok {| cipher_key := key; cipher_iv := iv |}.
Proof. intros Hk Hi. unfold Cipher. rewrite Hk, Hi. reflexivity. Qed.

(** Decrypting what was encrypted under the same key and IV gives the
    data back. *)
Lemma decryptor_encryptor (key iv data : bytes) :
  length key = 32 -> length iv = 16 -> length data mod 16 = 0 ->
  exists ct,
    encryptor {| cipher_key := key; cipher_iv := iv |} data = ok ct
    /\ decryptor {| cipher_key := key; cipher_iv := iv |} ct = ok data
    /\ length ct = length data.
Proof.
  intros Hkey Hiv Hmod.
  pose proof (blocks_fuel_full (length data) data (le_n _) Hmod) as Hfull.
  pose proof (cbc_encrypt_blocks_full key _ Hkey Hfull iv Hiv) as Hcfull.
  pose proof (full_blocks_length _ Hcfull) as Hclen.
  eexists. split; [|split].
  - unfold encryptor. rewrite Hmod. reflexivity.
  - unfold decryptor, blocks. cbn [cipher_key cipher_iv].
    rewrite Hclen, Nat.Div0.mod_mul. cbn [Nat.eqb negb].
    rewrite <- Hclen.
    rewrite blocks_fuel_of_concat by (assumption || apply le_n).
    rewrite cbc_decrypt_encrypt_blocks by assumption.
    now rewrite blocks_fuel_concat.
  - unfold blocks. cbn [cipher_key cipher_iv].
    rewrite Hclen, cbc_encrypt_blocks_count.
    rewrite <- (full_blocks_length _ Hfull).
    now rewrite blocks_fuel_concat.
Qed.

End WithCipher.
End ciphers_facts.

(** ** HMAC and PBKDF2 *)

Module kdf_facts.
Section WithHash.
Import kdf.
Context {H : HashFunction}.

Lemma hmac_length (key msg : bytes) :
  HashFunction_contract H -> length (hmac key msg) = 32.
Proof. intros Hc. unfold hmac. apply Hc. Qed.

Lemma pbkdf2_block_length (password salt : bytes) (c i : N) :
  HashFunction_contract H -> length (pbkdf2_block password salt c i) = 32.
Proof.
  intros Hc. unfold pbkdf2_block.
  set (f := fun tu : bytes * bytes => _).
  assert (Hinv : forall tu, length (fst tu) = 32 /\ length (snd tu) = 32 ->
                            length (fst (f tu)) = 32 /\ length (snd (f tu)) = 32).
  { intros [t u] [Ht Hu]. unfold f. cbn [fst snd] in *.
    rewrite xor_bytes_length, Ht, !hmac_length by assumption. auto. }
  apply (N.iter_invariant (c - 1) _ f
           (fun tu => length (fst tu) = 32 /\ length (snd tu) = 32)).
  - intros tu Htu. now apply Hinv.
  - cbn [fst snd]. rewrite hmac_length by assumption. auto.
Qed.

Lemma concat_map_length {A} (f : A -> bytes) (n : nat) (l : list A) :
  (forall a, length (f a) = n) -> length (concat (map f l)) = length l * n.
Proof.
  intros Hf. induction l as [|a l IH]; [reflexivity|].
  cbn [map concat]. rewrite length_app, Hf, IH. simpl. lia.
Qed.

(** The first two instances of the iteration: [U_1], and [U_1 xor U_2]. *)
Lemma pbkdf2_block_once (password salt : bytes) (i : N) :
  pbkdf2_block password salt 1 i = hmac password (salt ++ int32_be i).
Proof. reflexivity. Qed.

Lemma pbkdf2_block_twice (password salt : bytes) (i : N) :
  pbkdf2_block password salt 2 i
  = xor_bytes (hmac password (salt ++ int32_be i))
      (hmac password (hmac password (salt ++ int32_be i))).
Proof. reflexivity. Qed.

(** The derived key has the requested length. *)
Lemma PBKDF2HMAC_length (len : nat) (salt : bytes) (c : N) (km : bytes) :
  HashFunction_contract H -> length (PBKDF2HMAC len salt c km) = len.
Proof.
  intros Hc. unfold PBKDF2HMAC. rewrite length_firstn.
  rewrite (concat_map_length _ 32) by (intros; now apply pbkdf2_block_length).
  rewrite length_seq. unfold digest_size.
  pose proof (Nat.div_mod_eq (len + 32 - 1) 32) as Hd.
  pose proof (Nat.mod_upper_bound (len + 32 - 1) 32). lia.
Qed.

(** A key shorter than a block and the same key followed by a zero byte
    are filled to the same block. *)
Lemma hmac_key_zero (key msg : bytes) :
  length key < hash_block_size -> hmac (key ++ [x00]) msg = hmac key msg.
Proof.
  intros Hlen. unfold hmac. rewrite length_app. cbn [length].
  replace (hash_block_size <? length key + 1) with false
    by (symmetry; apply Nat.ltb_ge; lia).
  replace (hash_block_size <? length key) with false
    by (symmetry; apply Nat.ltb_ge; lia).
  rewrite length_app. cbn [length].
  replace ((key ++ [x00]) ++ repeat x00 (hash_block_size - (length key + 1)))
    with (key ++ repeat x00 (hash_block_size - length key)); [reflexivity|].
  rewrite <- app_assoc. f_equal.
  replace (hash_block_size - length key)
    with (S (hash_block_size - (length key + 1))) by lia.
  reflexivity.
Qed.

Lemma N_iter_ext {A} (f g : A -> A) (n : N) (x : A) :
  (forall a, f a = g a) -> N.iter n f x = N.iter n g x.
Proof.
  intros Hfg. induction n using N.peano_ind.
  - reflexivity.
  - rewrite !N.iter_succ, IHn. apply Hfg.
Qed.

Lemma PBKDF2HMAC_key_zero (len : nat) (salt : bytes) (c : N) (km : bytes) :
  length km < hash_block_size ->
  PBKDF2HMAC len salt c (km ++ [x00]) = PBKDF2HMAC len salt c km.
Proof.
  intros Hlen. unfold PBKDF2HMAC. f_equal. f_equal.
  apply map_ext. intros i. unfold pbkdf2_block.
  rewrite hmac_key_zero by assumption. f_equal.
  apply N_iter_ext. intros [t u]. cbn [fst snd].
  now rewrite hmac_key_zero.
Qed.

End WithHash.
End kdf_facts.

(** The iteration of PBKDF2 is never run by a proof. *)
Opaque kdf.pbkdf2_block.

(** ** encrypt and decrypt *)

Section EncryptionFacts.
Context {C : BlockCipher} {H : HashFunction} {E : Entropy}.
Hypothesis AES_ok : BlockCipher_contract C.
Hypothesis SHA_ok : HashFunction_contract H.
Hypothesis urandom_ok : Entropy_contract E.

Lemma derive_key_length (password : string) (salt : bytes)
      (len : option nat) :
  length (derive_key password salt len)
  = match len with Some n => n | None => 32 end.
Proof. unfold derive_key. now apply kdf_facts.PBKDF2HMAC_length. Qed.

Lemma derive_key_default_length (password : string) (salt : bytes) :
  length (derive_key password salt None) = 32.
Proof. apply derive_key_length. Qed.

Lemma str_encode_append (s1 s2 : string) :
  str_encode (s1 ++ s2)%string = str_encode s1 ++ str_encode s2.
Proof.
  unfold str_encode, list_byte_of_string.
  induction s1 as [|a s1 IH]; [reflexivity|].
  cbn [append list_ascii_of_string map app]. now rewrite IH.
Qed.

Lemma str_encode_length (s : string) : length (str_encode s) = String.length s.
Proof.
  unfold str_encode, list_byte_of_string. rewrite length_map.
  induction s as [|a s IH]; [reflexivity|]. simpl. now rewrite IH.
Qed.

(** A password of fewer than 64 bytes and the same password followed by a
    NUL character derive the same key. *)
Lemma derive_key_nul (password : string) (salt : bytes)
      (len : option nat) :
  String.length password < 64 ->
  derive_key (password ++ String "000" EmptyString)%string salt len
  = derive_key password salt len.
Proof.
  intros Hlen. unfold derive_key. rewrite str_encode_append.
  change (str_encode (String "000" EmptyString)) with [x00].
  apply kdf_facts.PBKDF2HMAC_key_zero.
  rewrite str_encode_length. exact Hlen.
Qed.

Lemma firstn_exact {A} (l r : list A) (n : nat) :
  length l = n -> firstn n (l ++ r) = l.
Proof.
  intros <-. rewrite firstn_app, Nat.sub_diag, firstn_O, app_nil_r.
  apply firstn_all.
Qed.

Lemma skipn_exact {A} (l r : list A) (n : nat) :
  length l = n -> skipn n (l ++ r) = r.
Proof.
  intros <-. rewrite skipn_app, Nat.sub_diag, skipn_O, skipn_all.
  reflexivity.
Qed.

(** What [decrypt] does with a blob that decodes to [salt ++ iv ++ ct]. *)
Lemma decrypt_split (text password : string) (salt iv ct : bytes) :
  length salt = 16 -> length iv = 16 ->
  base64.b64decode text = ok (salt ++ iv ++ ct) ->
  decrypt text password =
    (cipher <- ciphers.Cipher (derive_key password salt None) iv ;;
     padded_message <- ciphers.decryptor cipher ct ;;
     message <- padding.unpad padded_message ;;
     bytes_decode message).
Proof.
  intros Hs Hi Hdec. unfold decrypt. rewrite Hdec. cbn [bind].
  rewrite (firstn_exact salt (iv ++ ct) 16 Hs).
  rewrite (skipn_exact salt (iv ++ ct) 16 Hs).
  rewrite (firstn_exact iv ct 16 Hi).
  change 32 with (16 + 16). rewrite <- skipn_skipn.
  rewrite (skipn_exact salt (iv ++ ct) 16 Hs), (skipn_exact iv ct 16 Hi).
  reflexivity.
Qed.

(** The shape of what [encrypt] returns. *)
Lemma encrypt_shape (message password : string) (g : rng) :
  exists ct,
    ciphers.encryptor
      {| ciphers.cipher_key :=
           derive_key password (fst (urandom 16 g)) None;
         ciphers.cipher_iv := fst (urandom 16 (snd (urandom 16 g))) |}
      (padding.pad (str_encode message)) = ok ct
    /\ ciphers.decryptor
      {| ciphers.cipher_key :=
           derive_key password (fst (urandom 16 g)) None;
         ciphers.cipher_iv := fst (urandom 16 (snd (urandom 16 g))) |}
      ct = ok (padding.pad (str_encode message))
    /\ length ct mod 16 = 0
    /\ encrypt message password g =
       (ok (string_of_list_byte
              (base64.b64encode
                 (fst (urandom 16 g)
                  ++ fst (urandom 16 (snd (urandom 16 g))) ++ ct))),
        snd (urandom 16 (snd (urandom 16 g)))).
Proof.
  pose proof (urandom_ok 16 g) as Hsalt.
  pose proof (urandom_ok 16 (snd (urandom 16 g))) as Hiv.
  pose proof (derive_key_default_length password (fst (urandom 16 g)))
    as Hkey.
  pose proof (padding_facts.pad_length (str_encode message)) as Hpad.
  destruct (ciphers_facts.decryptor_encryptor AES_ok _ _ _ Hkey Hiv Hpad)
    as (ct & Henc & Hdec & Hlen).
  exists ct. split; [exact Henc|]. split; [exact Hdec|].
  split; [rewrite Hlen; exact Hpad|].
  unfold encrypt.
  destruct (urandom 16 g) as [salt g1] eqn:Hu1. cbn [fst snd] in *.
  destruct (urandom 16 g1) as [iv g2] eqn:Hu2. cbn [fst snd] in *.
  rewrite ciphers_facts.Cipher_ok by assumption. cbn [bind].
  rewrite Henc. cbn [bind].
  now rewrite base64_text.bytes_decode_b64encode.
Qed.

Lemma bytes_decode_str_encode (s : string) :
  utf8_valid (str_encode s) = true -> bytes_decode (str_encode s) = ok s.
Proof.
  intros Hv. unfold bytes_decode. rewrite Hv. unfold str_encode.
  now rewrite string_of_list_byte_of_string.
Qed.

(** Decrypting the output of [encrypt] under a password that derives the
    same key gives the message back. *)
Lemma decrypt_encrypt (message password password' : string) (g : rng) :
  utf8_valid (str_encode message) = true ->
  derive_key password' (fst (urandom 16 g)) None
  = derive_key password (fst (urandom 16 g)) None ->
  exists blob,
    fst (encrypt message password g) = ok blob
    /\ decrypt blob password' = ok message.
Proof.
  intros Hutf Hkeys.
  destruct (encrypt_shape message password g)
    as (ct & Henc & Hdec & _ & Heq).
  rewrite Heq. cbn [fst]. eexists. split; [reflexivity|].
  pose proof (urandom_ok 16 g) as Hsalt.
  pose proof (urandom_ok 16 (snd (urandom 16 g))) as Hiv.
  rewrite (decrypt_split _ password' _ _ _ Hsalt Hiv
             (base64_text.b64decode_b64encode _)).
  rewrite Hkeys.
  rewrite ciphers_facts.Cipher_ok
    by (assumption || apply derive_key_default_length).
  cbn [bind]. rewrite Hdec. cbn [bind].
  rewrite padding_facts.unpad_pad. cbn [bind].
  now apply bytes_decode_str_encode.
Qed.

End EncryptionFacts.

(** ** The tunnel entity and the session store *)

Section TunnelFacts.
Context {F : SSHForwarding} {I : Interpreter}.

Lemma mapM_map {A B D} (f : B -> result D) (g : A -> B) (h : A -> D)
      (l : list A) :
  Forall (fun a => f (g a) = ok (h a)) l ->
  mapM f (map g l) = ok (map h l).
Proof.
  induction 1 as [|a l Ha _ IH]; [reflexivity|].
  cbn [map mapM]. rewrite Ha. cbn [bind]. rewrite IH. reflexivity.
Qed.

(** Constructing from the dictionary of a tunnel gives the nine
    attributes back, up to the defaulting of [server_ip], and no
    forwarder. *)
Lemma SSHTunnel_kwargs_to_dict (t : SSHTunnel) :
  SSHTunnel_kwargs (to_dict t) =
    ok {| name := name t; local_ip := local_ip t;
          local_port := local_port t; host_ip := host_ip t;
          host_port := host_port t; server_port := server_port t;
          user := user t; password := password t;
          server_ip := if negb (truthy (server_ip t))
                       then host_ip t else server_ip t;
          _tunnel := None |}.
Proof. reflexivity. Qed.

Lemma SSHTunnel_kwargs_to_dict_truthy (t : SSHTunnel) :
  truthy (server_ip t) = true ->
  SSHTunnel_kwargs (to_dict t) = ok (inactive t).
Proof.
  intros Ht. rewrite SSHTunnel_kwargs_to_dict, Ht. reflexivity.
Qed.

Lemma is_str_wf (v : value) : is_str v = true -> wf_value v = true.
Proof. destruct v; simpl; congruence. Qed.

Lemma is_port_wf (v : value) : is_port v = true -> wf_value v = true.
Proof. destruct v; simpl; congruence. Qed.

Lemma valid_TunnelSpec_inv (t : SSHTunnel) :
  valid_TunnelSpec t = true ->
  (is_str (name t) = true /\ is_str (local_ip t) = true
   /\ is_str (host_ip t) = true /\ is_str (user t) = true
   /\ is_str (password t) = true /\ is_str (server_ip t) = true)
  /\ truthy (server_ip t) = true
  /\ (is_port (local_port t) = true /\ is_port (host_port t) = true
      /\ is_port (server_port t) = true).
Proof.
  unfold valid_TunnelSpec, port_invariant. intros Hv.
  repeat (apply andb_prop in Hv as [Hv ?]).
  repeat match goal with
         | H : (_ && _)%bool = true |- _ => apply andb_prop in H as [? ?]
         end.
  tauto.
Qed.

Lemma to_dict_wf (t : SSHTunnel) :
  valid_TunnelSpec t = true -> wf_value (to_dict t) = true.
Proof.
  intros Hv. apply valid_TunnelSpec_inv in Hv
    as ((H1 & H2 & H3 & H4 & H5 & H6) & _ & (H7 & H8 & H9)).
  unfold to_dict. cbn [wf_value map fst snd forallb].
  rewrite (is_str_wf _ H1), (is_str_wf _ H2), (is_str_wf _ H3),
    (is_str_wf _ H4), (is_str_wf _ H5), (is_str_wf _ H6),
    (is_port_wf _ H7), (is_port_wf _ H8), (is_port_wf _ H9).
  reflexivity.
Qed.

Lemma to_dicts_wf (L : list SSHTunnel) :
  Forall (fun t => valid_TunnelSpec t = true) L ->
  wf_value (VList (map to_dict L)) = true.
Proof.
  intros HL. cbn [wf_value]. apply forallb_forall. intros v Hin.
  apply in_map_iff in Hin as (t & <- & Ht).
  apply to_dict_wf. rewrite Forall_forall in HL. now apply HL.
Qed.

Lemma read_write_text (path data : string) (fs : filesystem) :
  read_text path (write_text path data fs) = ok data.
Proof. unfold read_text, write_text. now rewrite String.eqb_refl. Qed.

Context {C : BlockCipher} {H : HashFunction} {E : Entropy} {J : JSON}.
Hypothesis AES_ok : BlockCipher_contract C.
Hypothesis SHA_ok : HashFunction_contract H.
Hypothesis urandom_ok : Entropy_contract E.
Hypothesis json_ok : JSON_contract J.

(** Loading what was saved, under a password that derives the same key as
    the one used to save. *)
Lemma load_after_save (L : list SSHTunnel) (path pw pw' : string)
      (fs : filesystem) (g : rng) :
  Forall (fun t => valid_TunnelSpec t = true) L ->
  derive_key pw' (fst (urandom 16 g)) None
  = derive_key pw (fst (urandom 16 g)) None ->
  fst (fst (save_tunnels L path pw fs g)) = ok tt
  /\ load_tunnels path pw' (snd (fst (save_tunnels L path pw fs g)))
     = ok (map inactive L).
Proof.
  intros HL Hkeys.
  destruct (proj1 json_ok (VList (map to_dict L)) (to_dicts_wf L HL))
    as [Hascii Hloads].
  destruct (decrypt_encrypt AES_ok SHA_ok urandom_ok
              (json_dumps (VList (map to_dict L))) pw pw' g
              (base64_text.utf8_valid_ascii _ Hascii) Hkeys)
    as (blob & Henc & Hdec).
  unfold save_tunnels.
  destruct (encrypt (json_dumps (VList (map to_dict L))) pw g)
    as [r g'] eqn:He.
  cbn [fst] in Henc. subst r. cbn [fst snd]. split; [reflexivity|].
  unfold load_tunnels. rewrite read_write_text. cbn [bind].
  rewrite Hdec. cbn [bind]. rewrite Hloads. cbn [bind iterate].
  apply mapM_map. rewrite Forall_forall in *. intros t Ht.
  apply SSHTunnel_kwargs_to_dict_truthy.
  now destruct (valid_TunnelSpec_inv t (HL t Ht)) as (_ & Htr & _).
Qed.

End TunnelFacts.

(** ** The stand-ins meet the contracts *)

Module Fake_facts.
Import Fake.

Lemma block_cipher_ok : BlockCipher_contract block_cipher.
Proof.
  intros key block Hk Hb. cbn [AES_encrypt_block AES_decrypt_block block_cipher].
  assert (Hk16 : length (firstn 16 key) = 16) by (rewrite length_firstn; lia).
  split.
  - rewrite xor_bytes_length, Hb, Hk16. reflexivity.
  - apply xor_bytes_cancel. lia.
Qed.

Lemma absorb_length (fuel : nat) :
  forall st m, length st = 32 -> length (absorb fuel st m) = 32.
Proof.
  induction fuel as [|fuel IH]; intros st m Hst; [exact Hst|].
  destruct m as [|b m]; [exact Hst|]. cbn [absorb]. apply IH.
  rewrite length_map, xor_bytes_length, Hst, length_app, repeat_length.
  lia.
Qed.

Lemma hash_ok : HashFunction_contract hash.
Proof.
  intros m. cbn [SHA256 hash]. rewrite length_map.
  apply absorb_length, repeat_length.
Qed.


Lemma entropy_ok : Entropy_contract entropy.
Proof. intros n g. cbn. apply repeat_length. Qed.

Lemma dec_pos_enc (p : positive) (r : bytes) :
  dec_pos (enc_pos p ++ r) = Some (p, r).
Proof.
  induction p as [p IH|p IH|]; cbn [enc_pos app dec_pos Byte.eqb];
    try rewrite IH; reflexivity.
Qed.

Lemma dec_Z_enc (z : Z) (r : bytes) : dec_Z (enc_Z z ++ r) = Some (z, r).
Proof.
  destruct z as [|p|p]; cbn [enc_Z app dec_Z];
    try (change (Byte.eqb "+" "z") with false;
         change (Byte.eqb "+" "+") with true);
    try (change (Byte.eqb "-" "z") with false;
         change (Byte.eqb "-" "+") with false;
         change (Byte.eqb "-" "-") with true);
    cbn iota; try rewrite dec_pos_enc; reflexivity.
Qed.

Lemma unbit_bit (b : bool) : unbit (bit b) = b.
Proof. now destruct b. Qed.

Lemma bit_not_tag (b : bool) :
  Byte.eqb (bit b) "q" = false /\ Byte.eqb (bit b) "c" = false.
Proof. now destruct b. Qed.

Lemma dec_str_enc (s r : bytes) : dec_str (enc_str s ++ r) = Some (s, r).
Proof.
  induction s as [|b s IH]; [reflexivity|].
  cbn [enc_str]. unfold enc_byte.
  destruct (Byte.to_bits b)
    as (b0 & b1 & b2 & b3 & b4 & b5 & b6 & b7) eqn:Hb.
  cbn [app dec_str].
  change (Byte.eqb "c" "q") with false. change (Byte.eqb "c" "c") with true.
  cbn iota. rewrite IH, !unbit_bit, <- Hb, Byte.of_bits_to_bits.
  reflexivity.
Qed.

Lemma enc_str_length (s : bytes) : 0 < length (enc_str s).
Proof. destruct s; simpl; lia. Qed.

(** Induction on values, with the hypothesis for every element. *)
Lemma value_induction (P : value -> Prop) :
  P VNone -> (forall b, P (VBool b)) -> (forall z, P (VInt z)) ->
  (forall s, P (VStr s)) ->
  (forall l, Forall P l -> P (VList l)) ->
  (forall d, Forall (fun kv => P (snd kv)) d -> P (VDict d)) ->
  forall v, P v.
Proof.
  intros HN HB HI HS HL HD.
  fix IH 1. intros [ |b|z|s|l|d].
  - exact HN.
  - apply HB.
  - apply HI.
  - apply HS.
  - apply HL. induction l as [|v l IHl]; constructor; [apply IH | exact IHl].
  - apply HD. induction d as [|[k v] d IHd]; constructor;
      [apply IH | exact IHd].
Qed.

(** An encoded value starts with its tag, which closes neither a list
    nor a dictionary. *)
Lemma enc_head (v : value) :
  exists c tl, enc v = c :: tl /\ Byte.eqb c "]" = false.
Proof.
  destruct v as [ |[|]|z|s|l|d]; cbn [enc]; eexists; eexists;
    (split; [reflexivity | reflexivity]).
Qed.

Lemma enc_str_head (s : bytes) :
  exists c tl, enc_str s = c :: tl /\ Byte.eqb c "}" = false.
Proof.
  destruct s; cbn [enc_str]; eexists; eexists;
    (split; [reflexivity | reflexivity]).
Qed.

Lemma enc_items_length (l : list value) : 0 < length (enc_items l).
Proof.
  destruct l as [|v l]; [simpl; lia|].
  change (enc_items (v :: l)) with (enc v ++ enc_items l).
  destruct (enc_head v) as (c & tl & Hc & _).
  rewrite Hc. simpl. lia.
Qed.

Lemma enc_pairs_length (d : list (string * value)) : 0 < length (enc_pairs d).
Proof.
  destruct d as [|[k v] d]; [simpl; lia|].
  change (enc_pairs ((k, v) :: d))
    with (enc_str (list_byte_of_string k) ++ enc v ++ enc_pairs d).
  pose proof (enc_str_length (list_byte_of_string k)).
  rewrite length_app. lia.
Qed.

Lemma dec_items_enc (l : list value) :
  Forall dec_enc_at l ->
  forall fuel r, length (enc_items l) < fuel ->
    dec_items fuel (enc_items l ++ r) = Some (l, r).
Proof.
  induction 1 as [|v l Hv _ IH]; intros fuel r Hfuel.
  - destruct fuel as [|fuel]; [lia|]. reflexivity.
  - destruct fuel as [|fuel]; [lia|].
    change (enc_items (v :: l)) with (enc v ++ enc_items l) in *.
    rewrite length_app in Hfuel.
    destruct (enc_head v) as (c & tl & Hc & Hne).
    rewrite <- app_assoc. cbn [dec_items].
    rewrite Hc at 1. cbn [app]. rewrite Hne.
    replace (c :: tl ++ enc_items l ++ r) with (enc v ++ enc_items l ++ r)
      by (now rewrite Hc).
    assert (0 < length (enc v)) by (rewrite Hc; simpl; lia).
    pose proof (enc_items_length l).
    rewrite Hv by lia. rewrite IH by lia. reflexivity.
Qed.

Lemma dec_pairs_enc (d : list (string * value)) :
  Forall (fun kv => dec_enc_at (snd kv)) d ->
  forall fuel r, length (enc_pairs d) < fuel ->
    dec_pairs fuel (enc_pairs d ++ r) = Some (d, r).
Proof.
  induction 1 as [|[k v] d Hv _ IH]; intros fuel r Hfuel.
  - destruct fuel as [|fuel]; [lia|]. reflexivity.
  - destruct fuel as [|fuel]; [lia|].
    change (enc_pairs ((k, v) :: d))
      with (enc_str (list_byte_of_string k) ++ enc v ++ enc_pairs d) in *.
    rewrite !length_app in Hfuel.
    destruct (enc_str_head (list_byte_of_string k)) as (c & tl & Hc & Hne).
    rewrite <- !app_assoc. cbn [dec_pairs].
    rewrite Hc at 1. cbn [app]. rewrite Hne.
    replace (c :: tl ++ enc v ++ enc_pairs d ++ r)
      with (enc_str (list_byte_of_string k) ++ enc v ++ enc_pairs d ++ r)
      by (now rewrite Hc).
    pose proof (enc_str_length (list_byte_of_string k)).
    destruct (enc_head v) as (c' & tl' & Hc' & _).
    assert (0 < length (enc v)) by (rewrite Hc'; simpl; lia).
    pose proof (enc_pairs_length d).
    rewrite dec_str_enc. cbn [snd] in Hv.
    rewrite Hv by lia. rewrite IH by lia.
    now rewrite string_of_list_byte_of_string.
Qed.

Lemma dec_enc (v : value) : dec_enc_at v.
Proof.
  induction v as [ |b|z|s|l IH|d IH] using value_induction;
    intros fuel r Hfuel; (destruct fuel as [|fuel]; [lia|]).
  - reflexivity.
  - destruct b; reflexivity.
  - cbn [enc app dec]. change (Byte.eqb "i" "n") with false.
    change (Byte.eqb "i" "t") with false. change (Byte.eqb "i" "f") with false.
    change (Byte.eqb "i" "i") with true. cbn iota.
    now rewrite dec_Z_enc.
  - cbn [enc app dec]. change (Byte.eqb "s" "n") with false.
    change (Byte.eqb "s" "t") with false. change (Byte.eqb "s" "f") with false.
    change (Byte.eqb "s" "i") with false. change (Byte.eqb "s" "s") with true.
    cbn iota. rewrite dec_str_enc.
    now rewrite string_of_list_byte_of_string.
  - change (enc (VList l)) with ("["%byte :: enc_items l) in *.
    cbn [length] in Hfuel. cbn [app dec].
    change (Byte.eqb "[" "n") with false. change (Byte.eqb "[" "t") with false.
    change (Byte.eqb "[" "f") with false. change (Byte.eqb "[" "i") with false.
    change (Byte.eqb "[" "s") with false. change (Byte.eqb "[" "[") with true.
    cbn iota. rewrite dec_items_enc by (assumption || lia). reflexivity.
  - change (enc (VDict d)) with ("{"%byte :: enc_pairs d) in *.
    cbn [length] in Hfuel. cbn [app dec].
    change (Byte.eqb "{" "n") with false. change (Byte.eqb "{" "t") with false.
    change (Byte.eqb "{" "f") with false. change (Byte.eqb "{" "i") with false.
    change (Byte.eqb "{" "s") with false. change (Byte.eqb "{" "[") with false.
    change (Byte.eqb "{" "{") with true.
    cbn iota. rewrite dec_pairs_enc by (assumption || lia). reflexivity.
Qed.

Lemma enc_pos_ascii (p : positive) :
  forallb base64.is_ascii (enc_pos p) = true.
Proof. induction p; cbn [enc_pos forallb]; try rewrite IHp; reflexivity. Qed.

Lemma enc_str_ascii (s : bytes) : forallb base64.is_ascii (enc_str s) = true.
Proof.
  induction s as [|b s IH]; [reflexivity|].
  cbn [enc_str forallb]. rewrite forallb_app, IH. unfold enc_byte.
  destruct (Byte.to_bits b) as (b0 & b1 & b2 & b3 & b4 & b5 & b6 & b7).
  destruct b0, b1, b2, b3, b4, b5, b6, b7; reflexivity.
Qed.

Lemma enc_ascii (v : value) : forallb base64.is_ascii (enc v) = true.
Proof.
  induction v as [ |b|z|s|l IH|d IH] using value_induction.
  - reflexivity.
  - destruct b; reflexivity.
  - destruct z; cbn [enc enc_Z forallb]; try rewrite enc_pos_ascii; reflexivity.
  - cbn [enc forallb]. now rewrite enc_str_ascii.
  - change (enc (VList l)) with ("["%byte :: enc_items l).
    cbn [forallb]. change (base64.is_ascii "[") with true. cbn [andb].
    induction IH as [|v l Hv _ IHl]; [reflexivity|].
    change (enc_items (v :: l)) with (enc v ++ enc_items l).
    now rewrite forallb_app, Hv, IHl.
  - change (enc (VDict d)) with ("{"%byte :: enc_pairs d).
    cbn [forallb]. change (base64.is_ascii "{") with true. cbn [andb].
    induction IH as [|[k v] d Hv _ IHd]; [reflexivity|].
    change (enc_pairs ((k, v) :: d))
      with (enc_str (list_byte_of_string k) ++ enc v ++ enc_pairs d).
    cbn [snd] in Hv.
    now rewrite !forallb_app, enc_str_ascii, Hv, IHd.
Qed.

Lemma json_ok : JSON_contract json.
Proof.
  split.
  - intros v _. split.
    + unfold ascii_only. cbn [json_dumps json].
      rewrite list_byte_of_string_of_list_byte. apply enc_ascii.
    + cbn [json_dumps json_loads json].
      rewrite list_byte_of_string_of_list_byte.
      rewrite <- (app_nil_r (enc v)) at 2.
      rewrite dec_enc by lia. reflexivity.
  - intros s e. cbn [json_loads json].
    destruct (dec _ _) as [[v [|c r]]|]; intros He;
      (discriminate He || (left; now inversion He)).
Qed.

End Fake_facts.

(** ** Which stage raises what *)

Section Stages.
Context {F : SSHForwarding} {I : Interpreter} {C : BlockCipher}
        {H : HashFunction}.

Lemma a2b_loop_error (s : bytes) :
  forall q lc p out e,
    base64.a2b_loop s q lc p out = raise e -> e = Base64Error.
Proof.
  induction s as [|c s IH]; intros q lc p out e; cbn [base64.a2b_loop].
  - destruct (q =? 0)%N; congruence.
  - destruct (Byte.eqb c base64.pad_char).
    + destruct ((2 <=? q)%N && (4 <=? q + (p + 1))%N)%bool;
        [congruence | apply IH].
    + destruct (base64.a2b c) as [n|]; [|apply IH].
      destruct (q =? 0)%N; [apply IH|].
      destruct (q =? 1)%N; [apply IH|].
      destruct (q =? 2)%N; apply IH.
Qed.

Lemma b64decode_error (text : string) (e : exception) :
  base64.b64decode text = raise e -> e = Base64Error.
Proof.
  unfold base64.b64decode. destruct (forallb _ _); [|congruence].
  apply a2b_loop_error.
Qed.

Lemma Cipher_error (key iv : bytes) (e : exception) :
  ciphers.Cipher key iv = raise e ->
  e = InvalidKeySize (length key * 8) \/ e = InvalidIVSize (length iv).
Proof.
  unfold ciphers.Cipher.
  destruct (negb _); [intros He; left; congruence|].
  destruct (negb _); [intros He; right; congruence | discriminate].
Qed.

Lemma decryptor_error (c : ciphers.cipher) (data : bytes) (e : exception) :
  ciphers.decryptor c data = raise e -> e = NotBlockMultiple.
Proof. unfold ciphers.decryptor. destruct (negb _); congruence. Qed.

Lemma unpad_error (data : bytes) (e : exception) :
  padding.unpad data = raise e -> e = InvalidPadding.
Proof.
  unfold padding.unpad. destruct (negb _); [congruence|].
  destruct (negb _); congruence.
Qed.

Lemma bytes_decode_error (b : bytes) (e : exception) :
  bytes_decode b = raise e -> e = UnicodeDecodeError.
Proof. unfold bytes_decode. destruct (utf8_valid b); congruence. Qed.

Lemma iterate_error (data : value) (e : exception) :
  iterate data = raise e -> e = TypeError.
Proof. destruct data; cbn [iterate]; congruence. Qed.

Lemma SSHTunnel_kwargs_error (d : value) (e : exception) :
  SSHTunnel_kwargs d = raise e -> e = TypeError.
Proof.
  destruct d as [ | | | | |kw]; cbn [SSHTunnel_kwargs]; try congruence.
  destruct (negb _); [congruence|].
  destruct (lookup "local_port" kw); [|congruence].
  destruct (lookup "host_ip" kw); [|congruence].
  destruct (lookup "host_port" kw); [|congruence].
  destruct (lookup "user" kw); [|congruence].
  destruct (lookup "password" kw); congruence.
Qed.

Lemma mapM_error {A B} (f : A -> result B) (e0 : exception) (l : list A) :
  (forall a e, f a = raise e -> e = e0) ->
  forall e, mapM f l = raise e -> e = e0.
Proof.
  intros Hf. induction l as [|a l IH]; intros e; cbn [mapM]; [discriminate|].
  destruct (f a) as [e'|b] eqn:Hfa; cbn [bind].
  - intros He. inversion He; subst. eapply Hf, Hfa.
  - destruct (mapM f l) as [e'|bs]; cbn [bind]; [|discriminate].
    intros He. inversion He; subst. now apply IH.
Qed.

(** The classes of the errors [decrypt] can raise. *)
Lemma classify_IntegrityError (e : exception) :
  classify e = IntegrityError <-> e = InvalidPadding.
Proof. destruct e; cbn [classify]; split; congruence. Qed.

End Stages.

(** ** The steps of [start] and [stop] *)

Section TunnelSteps.
Context {F : SSHForwarding} {I : Interpreter}.

Lemma __str___set_tunnel (t : SSHTunnel) (h : option handle) :
  __str__ (set_tunnel t h) = __str__ t.
Proof. reflexivity. Qed.

Lemma printable_set_tunnel (t : SSHTunnel) (h : option handle) :
  printable (set_tunnel t h) = printable t.
Proof. reflexivity. Qed.

Lemma printable_true (t : SSHTunnel) :
  printable t = true -> __str__ t = ok tt.
Proof.
  unfold printable. destruct (__str__ t) as [e|[]]; cbn [returns];
    [discriminate | reflexivity].
Qed.

Lemma printable_false (t : SSHTunnel) :
  printable t = false -> exists e, __str__ t = raise e.
Proof.
  unfold printable. destruct (__str__ t) as [e|[]]; cbn [returns];
    [intros _; now exists e | discriminate].
Qed.




Lemma raises_not_printable (t : SSHTunnel) (e : exception) :
  __str__ t = raise e -> printable t = false.
Proof. unfold printable. now intros ->. Qed.

(** [stop] on a tunnel whose text can be written. *)
Lemma stop_printable (t : SSHTunnel) (w : network) :
  printable t = true ->
  stop t w
  = match
      match _tunnel t with
      | Some h =>
          if is_active t w then forwarder_stop h true w else (ok tt, w)
      | None => (ok tt, w)
      end
    with
    | (inl e, w') => (raise e, t, w')
    | (inr _, w') => (ok tt, inactive t, w')
    end.
Proof.
  intros Hp. unfold stop.
  rewrite __str___set_tunnel, (printable_true t Hp).
  destruct (match _tunnel t with
            | Some h => if is_active t w then forwarder_stop h true w
                        else (ok tt, w)
            | None => (ok tt, w)
            end) as [[e|u] w']; reflexivity.
Qed.

(** [stop] and [start] on a tunnel whose text cannot be written: the first
    call of the logger raises. *)
Lemma stop_not_printable (t : SSHTunnel) (w : network) (e : exception) :
  __str__ t = raise e -> stop t w = (raise e, t, w).
Proof. intros Hs. unfold stop. now rewrite Hs. Qed.

Lemma start_not_printable (t : SSHTunnel) (w : network) (e : exception) :
  __str__ t = raise e -> start t w = (raise e, t, w).
Proof.
  intros Hs. unfold start.
  destruct (_tunnel t) as [h|] eqn:Ht; [|now rewrite Hs].
  cbn [_tunnel]. rewrite Ht, Hs.
  destruct (negb (is_active t w)); reflexivity.
Qed.

(** [start] on a tunnel without a forwarder whose text can be written. *)
Lemma start_printable_new (t : SSHTunnel) (w : network) :
  printable t = true -> _tunnel t = None ->
  start t w
  = match
      SSHTunnelForwarder (server_ip t, server_port t)
        (host_ip t, host_port t) (local_ip t, local_port t)
        (user t) (password t) w
    with
    | (inl e, w1) => (raise e, t, w1)
    | (inr h, w1) =>
        if forwarder_is_active h w1
        then (ok tt, set_tunnel t (Some h), w1)
        else (fst (forwarder_start h w1), set_tunnel t (Some h),
              snd (forwarder_start h w1))
    end.
Proof.
  intros Hp Ht. unfold start. rewrite Ht, (printable_true t Hp).
  destruct (SSHTunnelForwarder _ _ _ _ _ w) as [[e|h] w1]; [reflexivity|].
  cbn [_tunnel set_tunnel is_active].
  change (__str__ _) with (__str__ t). rewrite (printable_true t Hp).
  destruct (forwarder_is_active h w1); cbn [negb]; [reflexivity|].
  destruct (forwarder_start h w1) as [[e|[]] w2]; reflexivity.
Qed.

(** [start] on a tunnel with a forwarder whose text can be written. *)
Lemma start_printable_held (t : SSHTunnel) (w : network) (h : handle) :
  printable t = true -> _tunnel t = Some h ->
  start t w
  = if forwarder_is_active h w then (ok tt, t, w)
    else (fst (forwarder_start h w), t, snd (forwarder_start h w)).
Proof.
  intros Hp Ht. unfold start, is_active. rewrite Ht.
  cbn [_tunnel]. rewrite Ht, (printable_true t Hp).
  destruct (forwarder_is_active h w); cbn [negb]; [reflexivity|].
  destruct (forwarder_start h w) as [[e|[]] w2]; reflexivity.
Qed.

(** [stop] either returns and leaves the tunnel without a forwarder, or
    raises and leaves it as it was. *)
Lemma stop_cases (t : SSHTunnel) (w : network) :
  (fst (fst (stop t w)) = ok tt /\ snd (fst (stop t w)) = inactive t
   /\ printable t = true)
  \/ (exists e, fst (fst (stop t w)) = raise e
                /\ snd (fst (stop t w)) = t
                /\ (_tunnel t <> None \/ printable t = false)).
Proof.
  destruct (printable t) eqn:Hp.
  - rewrite (stop_printable t w Hp).
    destruct (_tunnel t) as [h|] eqn:Ht.
    + destruct (is_active t w).
      * destruct (forwarder_stop h true w) as [[e|[]] w'].
        -- right. exists e. cbn [fst snd]. repeat split. left. discriminate.
        -- left. repeat split.
      * left. repeat split.
    + left. repeat split.
  - destruct (printable_false t Hp) as [e He].
    rewrite (stop_not_printable t w e He). right. exists e.
    cbn [fst snd]. repeat split. now right.
Qed.

(** [start] leaves the object as it was when it held a forwarder or when
    no forwarder was built, which is an error; otherwise the object has
    the new forwarder. *)
Lemma start_cases (t : SSHTunnel) (w : network) :
  (_tunnel t <> None /\ snd (fst (start t w)) = t)
  \/ (_tunnel t = None
      /\ exists e, fst (fst (start t w)) = raise e
                   /\ snd (fst (start t w)) = t)
  \/ (_tunnel t = None
      /\ exists h, snd (fst (start t w)) = set_tunnel t (Some h)).
Proof.
  destruct (printable t) eqn:Hp.
  - destruct (_tunnel t) as [h|] eqn:Ht.
    + left. split; [discriminate|].
      rewrite (start_printable_held t w h Hp Ht).
      destruct (forwarder_is_active h w); reflexivity.
    + right. rewrite (start_printable_new t w Hp Ht).
      destruct (SSHTunnelForwarder _ _ _ _ _ w) as [[e|h] w1].
      * left. split; [reflexivity|]. exists e. split; reflexivity.
      * right. split; [reflexivity|]. exists h.
        destruct (forwarder_is_active h w1); reflexivity.
  - destruct (printable_false t Hp) as [e He].
    rewrite (start_not_printable t w e He).
    destruct (_tunnel t) as [h|] eqn:Ht.
    + left. split; [discriminate | reflexivity].
    + right; left. split; [reflexivity|]. exists e.
      split; reflexivity.
Qed.

Lemma start_same_spec (t : SSHTunnel) (w : network) :
  (snd (fst (start t w)) = t
   \/ exists h, snd (fst (start t w)) = set_tunnel t h).
Proof.
  destruct (start_cases t w) as [[_ ->]|[(_ & e & _ & ->)|(_ & h & ->)]];
    [now left | now left | right; now exists (Some h)].
Qed.

Lemma stop_same_spec (t : SSHTunnel) (w : network) :
  (snd (fst (stop t w)) = t
   \/ exists h, snd (fst (stop t w)) = set_tunnel t h).
Proof.
  destruct (stop_cases t w) as [(_ & -> & _)|(e & _ & -> & _)];
    [right; now exists None | now left].
Qed.

End TunnelSteps.

(** ** The tunnel on the fake forwarder *)

(** A fresh tunnel is not active; after a start that connects it is; after
    a stop it is not, and a second stop changes nothing. *)
Example lifecycle_on_fake :
  let w0 := Scenario.network0 in
  let '(r1, t1, w1) := start (F := Fake.forwarding) Scenario.db w0 in
  let '(r2, t2, w2) := stop t1 w1 in
  let '(r3, t3, w3) := stop t2 w2 in
  is_active (F := Fake.forwarding) Scenario.db w0 = false
  /\ r1 = ok tt /\ is_active t1 w1 = true
  /\ r2 = ok tt /\ is_active t2 w2 = false /\ _tunnel t2 = None
  /\ r3 = ok tt /\ t3 = t2 /\ w3 = w2.
Proof. repeat split. Qed.

(** A start on an active tunnel keeps its forwarder. *)
Example start_twice_on_fake :
  let '(_, t1, w1) := start (F := Fake.forwarding) Scenario.db Scenario.network0 in
  start t1 w1 = (ok tt, t1, w1).
Proof. reflexivity. Qed.

Example SSHTunnel_kwargs_rejects :
  SSHTunnel_kwargs (F := Fake.forwarding) (VDict [("name"%string, VStr "db")])
  = raise TypeError
  /\ SSHTunnel_kwargs (F := Fake.forwarding)
       (VDict [("local_port", VInt 1); ("host_ip", VStr "h");
               ("host_port", VInt 2); ("user", VStr "u");
               ("password", VStr "p"); ("colour", VStr "red")]%string)
     = raise TypeError
  /\ SSHTunnel_kwargs (F := Fake.forwarding) (VInt 3) = raise TypeError.
Proof. repeat split. Qed.

(** With the five required keys alone the defaults apply. *)
Example SSHTunnel_kwargs_defaults :
  SSHTunnel_kwargs (F := Fake.forwarding)
    (VDict [("local_port", VInt 1); ("host_ip", VStr "h");
            ("host_port", VInt 2); ("user", VStr "u");
            ("password", VStr "p")]%string)
  = ok {| name := VStr EmptyString; local_ip := VStr "127.0.0.1";
          local_port := VInt 1; host_ip := VStr "h"; host_port := VInt 2;
          server_port := VInt 22; user := VStr "u"; password := VStr "p";
          server_ip := VStr "h"; _tunnel := None |}.
Proof. reflexivity. Qed.

(** * The claims *)

Section RoundTrip.
Context {F : SSHForwarding} {I : Interpreter} {C : BlockCipher}
        {H : HashFunction} {E : Entropy} {J : JSON}.

Lemma inactive_same (t : SSHTunnel) : same_TunnelSpec (inactive t) t.
Proof. repeat split. Qed.

(** C1. Save/load round trip: for every password [P] and every list [L] of
    valid TunnelSpecs, saving [L] with [P] succeeds, and loading the file
    with [P] returns a list with the nine fields of every element of [L],
    in the same order, whose tunnels all have no forwarder and report
    inactive. *)
Theorem save_load_round_trip :
  BlockCipher_contract C -> HashFunction_contract H ->
  Entropy_contract E -> JSON_contract J ->
  forall (L : list SSHTunnel) (path P : string) (fs : filesystem) (g : rng),
    Forall (fun t => valid_TunnelSpec t = true) L ->
    exists fs' g' L',
      save_tunnels L path P fs g = (ok tt, fs', g')
      /\ load_tunnels path P fs' = ok L'
      /\ Forall2 same_TunnelSpec L' L
      /\ Forall (fun t' => _tunnel t' = None
                           /\ forall w, is_active t' w = false) L'.
Proof.
  intros AES_ok SHA_ok urandom_ok json_ok L path P fs g HL.
  destruct (load_after_save AES_ok SHA_ok urandom_ok json_ok
              L path P P fs g HL eq_refl) as [Hsave Hload].
  destruct (save_tunnels L path P fs g) as [[r fs'] g'] eqn:Hs.
  cbn [fst snd] in *. subst r.
  exists fs', g', (map inactive L). repeat split.
  - exact Hload.
  - clear. induction L as [|t L IH]; constructor;
      [apply inactive_same | exact IH].
  - apply Forall_forall. intros t' Hin.
    apply in_map_iff in Hin as (t & <- & _). split; reflexivity.
Qed.

End RoundTrip.

Lemma db_valid : valid_TunnelSpec Scenario.db = true.
Proof. reflexivity. Qed.

Lemma save_load_round_trip_witness :
  exists fs' g' L',
    save_tunnels (F := Fake.forwarding) (C := Fake.block_cipher)
      (H := Fake.hash) (E := Fake.entropy) (J := Fake.json)
      [Scenario.db] Scenario.session_file "hunter2" Scenario.empty_fs 0%N
    = (ok tt, fs', g')
    /\ load_tunnels (F := Fake.forwarding) (C := Fake.block_cipher)
         (H := Fake.hash) (J := Fake.json)
         Scenario.session_file "hunter2" fs' = ok L'
    /\ Forall2 same_TunnelSpec L' [Scenario.db]
    /\ Forall (fun t' => _tunnel t' = None
                         /\ forall w, is_active t' w = false) L'.
Proof.
  apply (save_load_round_trip (F := Fake.forwarding)
           Fake_facts.block_cipher_ok Fake_facts.hash_ok
           Fake_facts.entropy_ok Fake_facts.json_ok).
  constructor; [exact db_valid | constructor].
Defined.

Section WrongPassword.
Context {F : SSHForwarding} {I : Interpreter} {C : BlockCipher}
        {H : HashFunction} {E : Entropy} {J : JSON}.

(** [load_tunnels] hands on whatever [decrypt] raises. *)
Lemma load_propagates_decrypt (path pw text : string) (fs : filesystem)
      (e : exception) :
  read_text path fs = ok text -> decrypt text pw = raise e ->
  load_tunnels path pw fs = raise e.
Proof.
  intros Hr Hd. unfold load_tunnels. rewrite Hr. cbn [bind].
  rewrite Hd. reflexivity.
Qed.

(** On a file written by [save_tunnels], loading under any password
    either succeeds or fails in the padding check, the text decoding,
    the JSON parser or the constructor. *)
Lemma load_saved_error (L : list SSHTunnel) (path pw pw' : string)
      (fs : filesystem) (g : rng) (e : exception) :
  BlockCipher_contract C -> HashFunction_contract H ->
  Entropy_contract E -> JSON_contract J ->
  fst (fst (save_tunnels L path pw fs g)) = ok tt ->
  load_tunnels path pw' (snd (fst (save_tunnels L path pw fs g))) = raise e ->
  e = InvalidPadding \/ e = UnicodeDecodeError
  \/ (e = JSONDecodeError \/ e = RecursionError \/ e = ValueError)
  \/ e = TypeError.
Proof.
  intros AES_ok SHA_ok urandom_ok json_ok. unfold save_tunnels.
  destruct (encrypt_shape AES_ok SHA_ok urandom_ok
              (json_dumps (VList (map to_dict L))) pw g)
    as (ct & _ & _ & Hmod & Heq).
  rewrite Heq. cbn [fst snd]. intros _.
  unfold load_tunnels. rewrite read_write_text. cbn [bind].
  rewrite (decrypt_split _ pw' _ _ _ (urandom_ok 16 g)
             (urandom_ok 16 (snd (urandom 16 g)))
             (base64_text.b64decode_b64encode _)).
  rewrite ciphers_facts.Cipher_ok
    by (apply urandom_ok || now apply derive_key_default_length).
  cbn [bind]. unfold ciphers.decryptor. rewrite Hmod.
  cbn [Nat.eqb negb bind].
  destruct (padding.unpad _) as [e1|message] eqn:Hunpad; cbn [bind].
  { intros He. left. inversion He; subst. eapply unpad_error, Hunpad. }
  destruct (bytes_decode message) as [e2|text] eqn:Htext; cbn [bind].
  { intros He. right; left. inversion He; subst.
    eapply bytes_decode_error, Htext. }
  destruct (json_loads text) as [e3|data] eqn:Hjson; cbn [bind].
  { intros He. right; right; left. inversion He; subst.
    eapply (proj2 json_ok), Hjson. }
  destruct (iterate data) as [e4|items] eqn:Hitems; cbn [bind].
  { intros He. right; right; right. inversion He; subst.
    eapply iterate_error, Hitems. }
  intros He. right; right; right.
  eapply mapM_error; [|exact He]. intros a e'. apply SSHTunnel_kwargs_error.
Qed.

(** C2, as amended. Loading a file saved with [P] under another password
    [P2] hands on the error of [decrypt] unchanged; when it fails, it fails
    with an IntegrityError (invalid padding) or a DeserializationError;
    but it does not always fail: it returns the saved list whenever [P2]
    derives the same key as [P] from the salt of the file, which is so for
    [P] followed by a NUL character when [P] is shorter than 64 bytes. *)
Theorem load_with_other_password :
  BlockCipher_contract C -> HashFunction_contract H ->
  Entropy_contract E -> JSON_contract J ->
  forall (L : list SSHTunnel) (path P P2 : string) (fs : filesystem) (g : rng),
    Forall (fun t => valid_TunnelSpec t = true) L ->
    let fs' := snd (fst (save_tunnels L path P fs g)) in
    (forall text e, read_text path fs' = ok text ->
                    decrypt text P2 = raise e ->
                    load_tunnels path P2 fs' = raise e)
    /\ (forall e, load_tunnels path P2 fs' = raise e ->
                  classify e = IntegrityError
                  \/ classify e = DeserializationError)
    /\ (derive_key P2 (fst (urandom 16 g)) None
        = derive_key P (fst (urandom 16 g)) None ->
        load_tunnels path P2 fs' = ok (map inactive L))
    /\ (String.length P < 64 ->
        load_tunnels path (P ++ String "000" EmptyString)%string fs'
        = ok (map inactive L)).
Proof.
  intros AES_ok SHA_ok urandom_ok json_ok L path P P2 fs g HL fs'.
  split; [|split; [|split]].
  - intros text e. apply load_propagates_decrypt.
  - intros e He.
    destruct (load_after_save AES_ok SHA_ok urandom_ok json_ok
                L path P P fs g HL eq_refl) as [Hsave _].
    destruct (load_saved_error L path P P2 fs g e
                AES_ok SHA_ok urandom_ok json_ok Hsave He)
      as [-> | [-> | [[-> | [-> | ->]] | ->]]]; cbn [classify]; auto.
  - intros Hkeys.
    apply (load_after_save AES_ok SHA_ok urandom_ok json_ok
             L path P P2 fs g HL Hkeys).
  - intros Hlen.
    apply (load_after_save AES_ok SHA_ok urandom_ok json_ok
             L path P _ fs g HL).
    now apply derive_key_nul.
Qed.

End WrongPassword.

Lemma load_with_other_password_witness :
  let fs' := snd (fst (save_tunnels (F := Fake.forwarding)
                         (C := Fake.block_cipher) (H := Fake.hash)
                         (E := Fake.entropy) (J := Fake.json)
                         [Scenario.db] Scenario.session_file "hunter2"
                         Scenario.empty_fs 0%N)) in
  (forall text e, read_text Scenario.session_file fs' = ok text ->
                  decrypt (C := Fake.block_cipher) (H := Fake.hash)
                    text "wrong" = raise e ->
                  load_tunnels (F := Fake.forwarding) (C := Fake.block_cipher)
                    (H := Fake.hash) (J := Fake.json)
                    Scenario.session_file "wrong" fs' = raise e)
  /\ (forall e, load_tunnels (F := Fake.forwarding) (C := Fake.block_cipher)
                  (H := Fake.hash) (J := Fake.json)
                  Scenario.session_file "wrong" fs' = raise e ->
                classify e = IntegrityError
                \/ classify e = DeserializationError)
  /\ (derive_key (H := Fake.hash) "wrong"
        (fst (urandom (Entropy := Fake.entropy) 16 0%N)) None
      = derive_key (H := Fake.hash) "hunter2"
          (fst (urandom (Entropy := Fake.entropy) 16 0%N)) None ->
      load_tunnels (F := Fake.forwarding) (C := Fake.block_cipher)
        (H := Fake.hash) (J := Fake.json)
        Scenario.session_file "wrong" fs' = ok (map inactive [Scenario.db]))
  /\ (String.length "hunter2" < 64 ->
      load_tunnels (F := Fake.forwarding) (C := Fake.block_cipher)
        (H := Fake.hash) (J := Fake.json) Scenario.session_file
        ("hunter2" ++ String "000" EmptyString)%string fs'
      = ok (map inactive [Scenario.db])).
Proof.
  apply (load_with_other_password (F := Fake.forwarding)
           Fake_facts.block_cipher_ok Fake_facts.hash_ok
           Fake_facts.entropy_ok Fake_facts.json_ok).
  constructor; [exact db_valid | constructor].
Defined.

(** C2, the claim as stated fails: the password hunter2 followed by a NUL
    character differs from hunter2 and loads what hunter2 saved. *)
Lemma wrong_password_accepted :
  ("hunter2" ++ String "000" EmptyString)%string <> "hunter2"%string
  /\ load_tunnels (F := Fake.forwarding) (C := Fake.block_cipher)
       (H := Fake.hash) (J := Fake.json) Scenario.session_file
       ("hunter2" ++ String "000" EmptyString)%string
       (snd (fst (save_tunnels (F := Fake.forwarding)
                    (C := Fake.block_cipher) (H := Fake.hash)
                    (E := Fake.entropy) (J := Fake.json)
                    [Scenario.db] Scenario.session_file "hunter2"
                    Scenario.empty_fs 0%N)))
     = ok [inactive Scenario.db].
Proof.
  split; [discriminate|].
  apply (load_after_save (F := Fake.forwarding)
           Fake_facts.block_cipher_ok Fake_facts.hash_ok
           Fake_facts.entropy_ok Fake_facts.json_ok
           [Scenario.db] Scenario.session_file "hunter2" _
           Scenario.empty_fs 0%N).
  - constructor; [exact db_valid | constructor].
  - apply (derive_key_nul (H := Fake.hash)). cbn. lia.
Qed.

Section ShortBlob.
Context {C : BlockCipher} {H : HashFunction}.

(** C3. Short-blob failure: when the decoded blob has fewer than 32 bytes,
    [decrypt] fails, for every password, at the check of the IV length (a
    FormatError: the blob cannot hold the salt and the IV); and [decrypt]
    fails with the padding error (the IntegrityError) exactly when the
    blob decodes, the cipher is set up, the ciphertext decrypts and the
    removal of the PKCS#7 padding finds an invalid pad. *)
Theorem decrypt_short_blob :
  HashFunction_contract H ->
  forall (text password : string),
    (forall data, base64.b64decode text = ok data -> length data < 32 ->
       decrypt text password = raise (InvalidIVSize (length data - 16))
       /\ classify (InvalidIVSize (length data - 16)) = FormatError)
    /\ (decrypt text password = raise InvalidPadding <->
        exists data cipher padded,
          base64.b64decode text = ok data
          /\ ciphers.Cipher (derive_key password (firstn 16 data) None)
               (firstn 16 (skipn 16 data)) = ok cipher
          /\ ciphers.decryptor cipher (skipn 32 data) = ok padded
          /\ padding.unpad padded = raise InvalidPadding)
    /\ (forall e, decrypt text password = raise e ->
          (classify e = IntegrityError <-> e = InvalidPadding)).
Proof.
  intros SHA_ok text password. split; [|split].
  - intros data Hdec Hlen. split; [|reflexivity].
    unfold decrypt. rewrite Hdec. cbn [bind].
    pose proof (derive_key_default_length SHA_ok password (firstn 16 data))
      as Hkey.
    unfold ciphers.Cipher. rewrite Hkey. cbn [Nat.eqb orb negb].
    assert (Hiv : length (firstn 16 (skipn 16 data)) = length data - 16).
    { rewrite length_firstn, length_skipn. lia. }
    rewrite Hiv.
    replace (length data - 16 =? 16) with false
      by (symmetry; apply Nat.eqb_neq; lia).
    reflexivity.
  - unfold decrypt. split.
    + destruct (base64.b64decode text) as [e|data] eqn:Hdec; cbn [bind].
      { intros He. inversion He; subst.
        apply b64decode_error in Hdec. discriminate. }
      destruct (ciphers.Cipher _ _) as [e|cipher] eqn:Hc; cbn [bind].
      { intros He. inversion He; subst.
        apply Cipher_error in Hc as [Hc|Hc]; discriminate. }
      destruct (ciphers.decryptor _ _) as [e|padded] eqn:Hd; cbn [bind].
      { intros He. inversion He; subst.
        apply decryptor_error in Hd. discriminate. }
      destruct (padding.unpad padded) as [e|message] eqn:Hu; cbn [bind].
      { intros He. inversion He; subst. exists data, cipher, padded.
        split; [reflexivity|]. split; [exact Hc|].
        split; [exact Hd | exact Hu]. }
      intros He. apply bytes_decode_error in He. discriminate.
    + intros (data & cipher & padded & Hdec & Hc & Hd & Hu).
      rewrite Hdec. cbn [bind]. rewrite Hc. cbn [bind].
      rewrite Hd. cbn [bind]. rewrite Hu. reflexivity.
  - intros e _. apply classify_IntegrityError.
Qed.

End ShortBlob.

Lemma decrypt_short_blob_witness :
  base64.b64decode "QUJD" = ok ["A"; "B"; "C"]%byte
  /\ length ["A"; "B"; "C"]%byte < 32
  /\ decrypt (C := Fake.block_cipher) (H := Fake.hash) "QUJD" "hunter2"
     = raise (InvalidIVSize 0).
Proof.
  split; [reflexivity|]. split; [simpl; lia|].
  refine (proj1 (proj1 (decrypt_short_blob (C := Fake.block_cipher)
                          Fake_facts.hash_ok "QUJD" "hunter2")
                   ["A"; "B"; "C"]%byte eq_refl _)).
  simpl; lia.
Defined.

Section Construction.
Context {F : SSHForwarding} {I : Interpreter}.

(** C4, as amended. Construction performs no port validation: it never
    fails and stores [local_port], [host_port] and [server_port] (22 when
    left out) exactly as given, so the three ports of a constructed
    TunnelSpec are in [1, 65535] exactly when the values supplied are. *)
Theorem init_stores_ports :
  forall (lp hi hp u p : value) (n li si sp : option value),
    let t := __init__ lp hi hp u p n li si sp in
    let sp' := match sp with Some v => v | None => VInt 22 end in
    local_port t = lp /\ host_port t = hp /\ server_port t = sp'
    /\ port_invariant t = (is_port lp && is_port hp && is_port sp')%bool.
Proof. intros. repeat split. Qed.

(** C8, as amended. Without an explicit [server_ip] the constructor
    stores [host_ip] as [server_ip]; [start] and [stop] never change the
    nine attributes, so the defaulting happens at construction only; and
    the stored [server_ip] is non-empty whenever [host_ip] is non-empty. *)
Theorem server_ip_defaulting :
  (forall (lp hi hp u p : value) (n li sp : option value),
     server_ip (__init__ lp hi hp u p n li None sp) = hi)
  /\ (forall (t : SSHTunnel) (w : network),
        same_TunnelSpec (snd (fst (start t w))) t
        /\ same_TunnelSpec (snd (fst (stop t w))) t)
  /\ (forall (lp hi hp u p : value) (n li si sp : option value),
        truthy hi = true ->
        truthy (server_ip (__init__ lp hi hp u p n li si sp)) = true).
Proof.
  split; [|split].
  - reflexivity.
  - intros t w. split.
    + destruct (start_same_spec t w) as [->|[h ->]]; repeat split.
    + destruct (stop_same_spec t w) as [->|[h ->]]; repeat split.
  - intros lp hi hp u p n li si sp Hhi. cbn [__init__ server_ip].
    destruct si as [v|]; cbn [truthy negb].
    + destruct (truthy v) eqn:Hv; cbn [negb]; assumption.
    + exact Hhi.
Qed.

(** C10, as amended. The defaulting tests the supplied [server_ip] for
    falsiness: an empty string (like [None], or leaving the argument out)
    yields [server_ip == host_ip], a truthy value is stored as given; an
    empty [server_ip] is stored only when [host_ip] is itself empty. *)
Theorem server_ip_falsy_defaulting :
  forall (lp hi hp u p : value) (n li sp : option value),
    server_ip (__init__ lp hi hp u p n li (Some (VStr EmptyString)) sp) = hi
    /\ server_ip (__init__ lp hi hp u p n li (Some VNone) sp) = hi
    /\ (forall v, truthy v = false ->
          server_ip (__init__ lp hi hp u p n li (Some v) sp) = hi)
    /\ (forall v, truthy v = true ->
          server_ip (__init__ lp hi hp u p n li (Some v) sp) = v)
    /\ (forall si,
          server_ip (__init__ lp hi hp u p n li si sp) = VStr EmptyString ->
          hi = VStr EmptyString).
Proof.
  intros lp hi hp u p n li sp. repeat split.
  - intros v Hv. cbn [__init__ server_ip]. now rewrite Hv.
  - intros v Hv. cbn [__init__ server_ip]. now rewrite Hv.
  - intros si. cbn [__init__ server_ip].
    destruct si as [v|]; cbn [truthy negb]; [|auto].
    destruct (truthy v) eqn:Hv; cbn [negb]; [|auto].
    intros ->. discriminate Hv.
Qed.

End Construction.

(** C4, the claim as stated fails: the constructor accepts the local ports
    0 and 65536 and stores them, against the port invariant. *)
Lemma port_out_of_range_constructed :
  local_port (__init__ (F := Fake.forwarding) (VInt 0) (VStr "10.0.0.5")
                (VInt 5432) (VStr "alice") (VStr "secret")
                None None None None) = VInt 0
  /\ port_invariant (__init__ (F := Fake.forwarding) (VInt 0)
                       (VStr "10.0.0.5") (VInt 5432) (VStr "alice")
                       (VStr "secret") None None None None) = false
  /\ local_port (__init__ (F := Fake.forwarding) (VInt 65536)
                   (VStr "10.0.0.5") (VInt 5432) (VStr "alice")
                   (VStr "secret") None None None None) = VInt 65536
  /\ port_invariant (__init__ (F := Fake.forwarding) (VInt 65536)
                       (VStr "10.0.0.5") (VInt 5432) (VStr "alice")
                       (VStr "secret") None None None None) = false.
Proof. repeat split. Qed.

(** C8, the claim as stated fails: with an empty [host_ip] and no
    [server_ip], the stored [server_ip] is empty. *)
Lemma empty_server_ip_constructed :
  server_ip (__init__ (F := Fake.forwarding) (VInt 5432) (VStr EmptyString)
               (VInt 5432) (VStr "alice") (VStr "secret")
               None None None None) = VStr EmptyString.
Proof. reflexivity. Qed.

(** C10, the claim as stated fails: an empty [server_ip] supplied with an
    empty [host_ip] is stored as the empty string. *)
Lemma empty_server_ip_stored :
  server_ip (__init__ (F := Fake.forwarding) (VInt 5432) (VStr EmptyString)
               (VInt 5432) (VStr "alice") (VStr "secret")
               (Some (VStr "db")) (Some (VStr "127.0.0.1"))
               (Some (VStr EmptyString)) (Some (VInt 22))) = VStr EmptyString
  /\ truthy (server_ip (__init__ (F := Fake.forwarding) (VInt 5432)
                          (VStr EmptyString) (VInt 5432) (VStr "alice")
                          (VStr "secret") (Some (VStr "db"))
                          (Some (VStr "127.0.0.1"))
                          (Some (VStr EmptyString)) (Some (VInt 22)))) = false.
Proof. split; reflexivity. Qed.

Lemma server_ip_defaulting_witness :
  truthy (server_ip (__init__ (F := Fake.forwarding) (VInt 5432)
                       (VStr "10.0.0.5") (VInt 5432) (VStr "alice")
                       (VStr "secret") None None None None)) = true.
Proof.
  exact (proj2 (proj2 (server_ip_defaulting (F := Fake.forwarding)))
           (VInt 5432) (VStr "10.0.0.5") (VInt 5432) (VStr "alice")
           (VStr "secret") None None None None eq_refl).
Defined.

Lemma server_ip_falsy_defaulting_witness :
  server_ip (__init__ (F := Fake.forwarding) (VInt 5432) (VStr "10.0.0.5")
               (VInt 5432) (VStr "alice") (VStr "secret") None None
               (Some (VInt 0)) None) = VStr "10.0.0.5".
Proof.
  exact (proj1 (proj2 (proj2 (server_ip_falsy_defaulting
                                (F := Fake.forwarding) (VInt 5432)
                                (VStr "10.0.0.5") (VInt 5432) (VStr "alice")
                                (VStr "secret") None None None)))
           (VInt 0) eq_refl).
Defined.

Section Lifecycle.
Context {F : SSHForwarding} {I : Interpreter}.

Lemma set_tunnel_same (t : SSHTunnel) (h : option handle) :
  same_TunnelSpec (set_tunnel t h) t.
Proof. repeat split. Qed.



End Lifecycle.





(** A tunnel whose name is a number of 4301 digits, and one whose local
    port is a list nested a thousand deep, can be neither started nor
    stopped: the log line raises, and no forwarder is built. *)
Example unwritable_tunnels :
  start Unwritable.numbered Scenario.network0
  = (raise ValueError, Unwritable.numbered, Scenario.network0)
  /\ stop Unwritable.numbered Scenario.network0
     = (raise ValueError, Unwritable.numbered, Scenario.network0)
  /\ start Unwritable.nested Scenario.network0
     = (raise RecursionError, Unwritable.nested, Scenario.network0)
  /\ stop Unwritable.nested Scenario.network0
     = (raise RecursionError, Unwritable.nested, Scenario.network0).
Proof. split; [|split; [|split]]; vm_compute; reflexivity. Qed.

Section Format.
Context {C : BlockCipher} {H : HashFunction} {E : Entropy}.

(** C7. Encrypt output format: with [salt] and [iv] the two 16-byte
    draws from the random source and [key] the 32 bytes that [derive_key]
    makes of the password and [salt], [encrypt] returns the base64 text of
    [salt ++ iv ++ ciphertext], where the ciphertext is the CBC encryption
    under [key] and [iv] of the PKCS#7-padded bytes of the message; and
    [decrypt], on a blob that decodes to [salt ++ iv ++ ct] with 16 bytes
    of salt and of IV, derives its key from that salt and decrypts [ct]
    under that IV. *)
Theorem encrypt_format :
  BlockCipher_contract C -> HashFunction_contract H -> Entropy_contract E ->
  forall (message password : string) (g : rng),
    let salt := fst (urandom 16 g) in
    let g1 := snd (urandom 16 g) in
    let iv := fst (urandom 16 g1) in
    let g2 := snd (urandom 16 g1) in
    let key := derive_key password salt None in
    let ciphertext :=
      concat (ciphers.cbc_encrypt_blocks key iv
                (ciphers.blocks (padding.pad (str_encode message)))) in
    length salt = 16 /\ length iv = 16 /\ length key = 32
    /\ encrypt message password g
       = (ok (string_of_list_byte
                (base64.b64encode (salt ++ iv ++ ciphertext))), g2)
    /\ base64.b64decode
         (string_of_list_byte (base64.b64encode (salt ++ iv ++ ciphertext)))
       = ok (salt ++ iv ++ ciphertext)
    /\ (forall (text password' : string) (salt' iv' ct : bytes),
          length salt' = 16 -> length iv' = 16 ->
          base64.b64decode text = ok (salt' ++ iv' ++ ct) ->
          decrypt text password' =
            (cipher <- ciphers.Cipher (derive_key password' salt' None) iv' ;;
             padded_message <- ciphers.decryptor cipher ct ;;
             message <- padding.unpad padded_message ;;
             bytes_decode message)).
Proof.
  intros AES_ok SHA_ok urandom_ok message password g.
  intros salt g1 iv g2 key ciphertext.
  assert (Hsalt : length salt = 16) by apply urandom_ok.
  assert (Hiv : length iv = 16) by apply urandom_ok.
  assert (Hkey : length key = 32) by now apply derive_key_default_length.
  split; [exact Hsalt|]. split; [exact Hiv|]. split; [exact Hkey|].
  split; [|split].
  - destruct (encrypt_shape AES_ok SHA_ok urandom_ok message password g)
      as (ct & Henc & _ & _ & Heq).
    rewrite Heq. unfold ciphers.encryptor in Henc.
    rewrite padding_facts.pad_length in Henc. cbn [Nat.eqb negb] in Henc.
    cbn [ciphers.cipher_key ciphers.cipher_iv] in Henc.
    inversion Henc; subst ct. reflexivity.
  - apply base64_text.b64decode_b64encode.
  - intros text password' salt' iv' ct. apply decrypt_split.
Qed.

End Format.

Lemma encrypt_format_witness :
  length (fst (urandom (Entropy := Fake.entropy) 16 0%N)) = 16.
Proof.
  exact (proj1 (encrypt_format (C := Fake.block_cipher) (H := Fake.hash)
                  Fake_facts.block_cipher_ok Fake_facts.hash_ok
                  Fake_facts.entropy_ok "[]" "hunter2" 0%N)).
Defined.

Section KeyDerivation.
Context {H : HashFunction}.

(** C9. Key derivation: [derive_key] is PBKDF2 with HMAC-SHA-256 at
    100000 iterations over the bytes of the password and the salt, a
    function of the password, the salt and the length alone; it returns
    exactly [length] bytes, 32 when the length is left out, and the
    32-byte key is the first block of PBKDF2. *)
Theorem derive_key_spec :
  HashFunction_contract H ->
  forall (password : string) (salt : bytes),
    (forall n, derive_key password salt (Some n)
               = kdf.PBKDF2HMAC n salt 100000 (str_encode password)
               /\ length (derive_key password salt (Some n)) = n)
    /\ derive_key password salt None = derive_key password salt (Some 32)
    /\ length (derive_key password salt None) = 32
    /\ derive_key password salt None
       = kdf.pbkdf2_block (str_encode password) salt 100000 1
    /\ (forall (password' : string) (salt' : bytes) (len : option nat),
          password' = password -> salt' = salt ->
          derive_key password' salt' len = derive_key password salt len).
Proof.
  intros SHA_ok password salt.
  split; [|split; [|split; [|split]]].
  - intros n. split; [reflexivity|].
    now apply (derive_key_length SHA_ok password salt (Some n)).
  - reflexivity.
  - now apply derive_key_default_length.
  - unfold derive_key, kdf.PBKDF2HMAC.
    change ((32 + kdf.digest_size - 1) / kdf.digest_size) with 1.
    cbn [seq map concat N.of_nat Pos.of_succ_nat]. rewrite app_nil_r.
    apply firstn_all2.
    rewrite kdf_facts.pbkdf2_block_length by exact SHA_ok. apply le_n.
  - intros password' salt' len -> ->. reflexivity.
Qed.

End KeyDerivation.

Lemma derive_key_spec_witness :
  length (derive_key (H := Fake.hash) "hunter2" (repeat x00 16) None) = 32.
Proof.
  exact (proj1 (proj2 (proj2 (derive_key_spec Fake_facts.hash_ok
                                "hunter2" (repeat x00 16))))).
Defined.

(** * Further properties of the code *)

(** ** The cipher engine ([src/encryption.py]) *)

Module base64_length.
Import base64.

Lemma b64encode_length (n : nat) :
  forall data, length data <= n ->
    length (b64encode data) = 4 * ((length data + 2) / 3).
Proof.
  induction n as [|n IH]; intros data Hlen.
  - destruct data; [reflexivity | simpl in Hlen; lia].
  - destruct data as [|x [|y [|z rest]]]; try reflexivity.
    cbn [b64encode length]. rewrite IH by (simpl in Hlen; lia).
    replace (S (S (S (length rest))) + 2) with (length rest + 2 + 1 * 3) by lia.
    rewrite Nat.div_add by lia. lia.
Qed.

Lemma string_of_list_byte_length (l : bytes) :
  String.length (string_of_list_byte l) = length l.
Proof.
  unfold string_of_list_byte.
  induction l as [|b l IH]; [reflexivity|]. cbn. now rewrite IH.
Qed.

End base64_length.

Section CipherEngine.
Context {C : BlockCipher} {H : HashFunction} {E : Entropy}.

(** X1. [decrypt] undoes [encrypt]: for every text message and every
    password, [encrypt] returns a blob and [decrypt] of that blob under
    the same password returns the message. *)
Theorem decrypt_encrypt_round_trip :
  BlockCipher_contract C -> HashFunction_contract H -> Entropy_contract E ->
  forall (message password : string) (g : rng),
    utf8_valid (str_encode message) = true ->
    exists blob,
      fst (encrypt message password g) = ok blob
      /\ decrypt blob password = ok message.
Proof.
  intros AES_ok SHA_ok urandom_ok message password g Hutf.
  exact (decrypt_encrypt AES_ok SHA_ok urandom_ok
           message password password g Hutf eq_refl).
Qed.

Lemma pad_length_exact (data : bytes) :
  length (padding.pad data) = 16 * (length data / 16 + 1).
Proof.
  unfold padding.pad. rewrite length_app, repeat_length.
  pose proof (padding_facts.pad_size_range (length data)) as Hr.
  unfold padding.block_size in *.
  pose proof (Nat.div_mod_eq (length data) 16). lia.
Qed.

Lemma encryptor_length (c : ciphers.cipher) (data ct : bytes) :
  BlockCipher_contract C ->
  length (ciphers.cipher_key c) = 32 -> length (ciphers.cipher_iv c) = 16 ->
  ciphers.encryptor c data = ok ct -> length ct = length data.
Proof.
  intros AES_ok Hk Hi Henc. destruct c as [key iv]. cbn [ciphers.cipher_key ciphers.cipher_iv] in *.
  assert (Hmod : length data mod 16 = 0).
  { unfold ciphers.encryptor in Henc.
    destruct (length data mod 16 =? 0) eqn:Hm; [|discriminate Henc].
    now apply Nat.eqb_eq. }
  destruct (ciphers_facts.decryptor_encryptor AES_ok key iv data Hk Hi Hmod)
    as (ct' & Henc' & _ & Hlen).
  rewrite Henc in Henc'. inversion Henc'; subst ct'. exact Hlen.
Qed.

(** X2. The size of a blob: what [encrypt] returns is ASCII text that
    decodes to 32 bytes of salt and IV followed by whole 16-byte blocks,
    one more than the message has full blocks; so the decoded blob has at
    least 48 bytes. *)
Theorem encrypt_blob_length :
  BlockCipher_contract C -> HashFunction_contract H -> Entropy_contract E ->
  forall (message password : string) (g : rng),
    exists blob data,
      fst (encrypt message password g) = ok blob
      /\ base64.b64decode blob = ok data
      /\ length data = 32 + 16 * (length (str_encode message) / 16 + 1)
      /\ String.length blob = 4 * ((length data + 2) / 3)
      /\ ascii_only blob = true.
Proof.
  intros AES_ok SHA_ok urandom_ok message password g.
  destruct (encrypt_shape AES_ok SHA_ok urandom_ok message password g)
    as (ct & Henc & _ & _ & Heq).
  pose proof (urandom_ok 16 g) as Hsalt.
  pose proof (urandom_ok 16 (snd (urandom 16 g))) as Hiv.
  pose proof (derive_key_default_length SHA_ok password (fst (urandom 16 g)))
    as Hkey.
  pose proof (encryptor_length
                {| ciphers.cipher_key :=
                     derive_key password (fst (urandom 16 g)) None;
                   ciphers.cipher_iv := fst (urandom 16 (snd (urandom 16 g))) |}
                _ _ AES_ok Hkey Hiv Henc) as Hct.
  rewrite pad_length_exact in Hct.
  rewrite Heq. cbn [fst].
  set (data := fst (urandom 16 g)
               ++ fst (urandom 16 (snd (urandom 16 g))) ++ ct) in *.
  exists (string_of_list_byte (base64.b64encode data)), data.
  split; [reflexivity|]. split; [apply base64_text.b64decode_b64encode|].
  split; [|split].
  - unfold data. rewrite !length_app, Hsalt, Hiv, Hct. lia.
  - rewrite base64_length.string_of_list_byte_length.
    apply (base64_length.b64encode_length (length data)), le_n.
  - unfold ascii_only. rewrite list_byte_of_string_of_list_byte.
    apply (base64_text.b64encode_is_ascii (length data)), le_n.
Qed.

(** X3. Fresh randomness gives a fresh blob: two calls of [encrypt] whose
    draws of salt and IV differ return different blobs, whatever the
    messages and passwords. *)
Theorem encrypt_distinct_blobs :
  BlockCipher_contract C -> HashFunction_contract H -> Entropy_contract E ->
  forall (message password message' password' : string) (g g' : rng),
    (fst (urandom 16 g), fst (urandom 16 (snd (urandom 16 g))))
    <> (fst (urandom 16 g'), fst (urandom 16 (snd (urandom 16 g')))) ->
    fst (encrypt message password g) <> fst (encrypt message' password' g').
Proof.
  intros AES_ok SHA_ok urandom_ok message password message' password' g g'.
  intros Hdiff Heq. apply Hdiff. clear Hdiff.
  destruct (encrypt_shape AES_ok SHA_ok urandom_ok message password g)
    as (ct & _ & _ & _ & He).
  destruct (encrypt_shape AES_ok SHA_ok urandom_ok message' password' g')
    as (ct' & _ & _ & _ & He').
  rewrite He, He' in Heq. cbn [fst] in Heq.
  pose proof (urandom_ok 16 g) as Hsalt.
  pose proof (urandom_ok 16 (snd (urandom 16 g))) as Hiv.
  pose proof (urandom_ok 16 g') as Hsalt'.
  pose proof (urandom_ok 16 (snd (urandom 16 g'))) as Hiv'.
  set (salt := fst (urandom 16 g)) in *.
  set (iv := fst (urandom 16 (snd (urandom 16 g)))) in *.
  set (salt' := fst (urandom 16 g')) in *.
  set (iv' := fst (urandom 16 (snd (urandom 16 g')))) in *.
  assert (Hdata : salt ++ iv ++ ct = salt' ++ iv' ++ ct').
  { pose proof (base64_text.b64decode_b64encode (salt ++ iv ++ ct)) as H1.
    pose proof (base64_text.b64decode_b64encode (salt' ++ iv' ++ ct')) as H2.
    assert (Ht : string_of_list_byte (base64.b64encode (salt ++ iv ++ ct))
                 = string_of_list_byte (base64.b64encode (salt' ++ iv' ++ ct')))
      by congruence.
    rewrite Ht in H1. rewrite H1 in H2. congruence. }
  assert (Hs : salt = salt').
  { rewrite <- (firstn_exact salt (iv ++ ct) 16 Hsalt), Hdata.
    apply firstn_exact, Hsalt'. }
  assert (Hi : iv = iv').
  { apply (f_equal (skipn 16)) in Hdata.
    rewrite (skipn_exact salt (iv ++ ct) 16 Hsalt) in Hdata.
    rewrite (skipn_exact salt' (iv' ++ ct') 16 Hsalt') in Hdata.
    rewrite <- (firstn_exact iv ct 16 Hiv), Hdata.
    apply firstn_exact, Hiv'. }
  now rewrite Hs, Hi.
Qed.

End CipherEngine.

Lemma decrypt_encrypt_round_trip_witness :
  exists blob,
    fst (encrypt (C := Fake.block_cipher) (H := Fake.hash) (E := Fake.entropy)
           "[]" "hunter2" 0%N) = ok blob
    /\ decrypt (C := Fake.block_cipher) (H := Fake.hash) blob "hunter2"
       = ok "[]"%string.
Proof.
  exact (decrypt_encrypt_round_trip (C := Fake.block_cipher) (H := Fake.hash)
           (E := Fake.entropy) Fake_facts.block_cipher_ok Fake_facts.hash_ok
           Fake_facts.entropy_ok "[]" "hunter2" 0%N eq_refl).
Defined.

Lemma encrypt_blob_length_witness :
  exists blob data,
    fst (encrypt (C := Fake.block_cipher) (H := Fake.hash) (E := Fake.entropy)
           "[]" "hunter2" 0%N) = ok blob
    /\ base64.b64decode blob = ok data
    /\ length data = 32 + 16 * (length (str_encode "[]") / 16 + 1)
    /\ String.length blob = 4 * ((length data + 2) / 3)
    /\ ascii_only blob = true.
Proof.
  exact (encrypt_blob_length (C := Fake.block_cipher) (H := Fake.hash)
           (E := Fake.entropy) Fake_facts.block_cipher_ok Fake_facts.hash_ok
           Fake_facts.entropy_ok "[]" "hunter2" 0%N).
Defined.

Lemma encrypt_distinct_blobs_witness :
  (fst (urandom (Entropy := Fake.entropy) 16 0%N),
   fst (urandom (Entropy := Fake.entropy) 16
          (snd (urandom (Entropy := Fake.entropy) 16 0%N))))
  <> (fst (urandom (Entropy := Fake.entropy) 16 1%N),
      fst (urandom (Entropy := Fake.entropy) 16
             (snd (urandom (Entropy := Fake.entropy) 16 1%N))))
  /\ fst (encrypt (C := Fake.block_cipher) (H := Fake.hash)
            (E := Fake.entropy) "[]" "hunter2" 0%N)
     <> fst (encrypt (C := Fake.block_cipher) (H := Fake.hash)
               (E := Fake.entropy) "[]" "hunter2" 1%N).
Proof.
  assert (Hdraws :
            (fst (urandom (Entropy := Fake.entropy) 16 0%N),
             fst (urandom (Entropy := Fake.entropy) 16
                    (snd (urandom (Entropy := Fake.entropy) 16 0%N))))
            <> (fst (urandom (Entropy := Fake.entropy) 16 1%N),
                fst (urandom (Entropy := Fake.entropy) 16
                       (snd (urandom (Entropy := Fake.entropy) 16 1%N)))))
    by (vm_compute; discriminate).
  split; [exact Hdraws|].
  exact (encrypt_distinct_blobs (C := Fake.block_cipher) (H := Fake.hash)
           (E := Fake.entropy) Fake_facts.block_cipher_ok Fake_facts.hash_ok
           Fake_facts.entropy_ok "[]" "hunter2" "[]" "hunter2" 0%N 1%N Hdraws).
Defined.

Section DecryptOutcomes.
Context {C : BlockCipher} {H : HashFunction}.

Lemma Cipher_inv (key iv : bytes) (c : ciphers.cipher) :
  ciphers.Cipher key iv = ok c ->
  length iv = 16 /\ c = {| ciphers.cipher_key := key; ciphers.cipher_iv := iv |}.
Proof.
  unfold ciphers.Cipher. destruct (negb _); [discriminate|].
  destruct (length iv =? 16) eqn:Hiv; cbn [negb]; [|discriminate].
  intros Hc. apply Nat.eqb_eq in Hiv. split; [exact Hiv | congruence].
Qed.

Lemma Cipher_error_32 (key iv : bytes) (e : exception) :
  length key = 32 -> ciphers.Cipher key iv = raise e ->
  e = InvalidIVSize (length iv) /\ length iv <> 16.
Proof.
  intros Hk. unfold ciphers.Cipher. rewrite Hk. cbn [Nat.eqb orb negb].
  destruct (length iv =? 16) eqn:Hiv; cbn [negb]; [discriminate|].
  intros He. apply Nat.eqb_neq in Hiv. split; [congruence | exact Hiv].
Qed.

Lemma decryptor_inv (c : ciphers.cipher) (data padded : bytes) :
  ciphers.decryptor c data = ok padded ->
  length data mod 16 = 0
  /\ padded = concat (ciphers.cbc_decrypt_blocks (ciphers.cipher_key c)
                        (ciphers.cipher_iv c) (ciphers.blocks data)).
Proof.
  unfold ciphers.decryptor.
  destruct (length data mod 16 =? 0) eqn:Hm; cbn [negb]; [|discriminate].
  intros Hd. apply Nat.eqb_eq in Hm. split; [exact Hm | congruence].
Qed.

Lemma decryptor_empty (c : ciphers.cipher) : ciphers.decryptor c [] = ok [].
Proof. reflexivity. Qed.

(** X4. A blob cut off after the IV, or in the middle of a block: when the
    decoded blob has exactly 32 bytes, [decrypt] fails in the removal of
    the padding; when it has more, but the ciphertext is not a whole
    number of 16-byte blocks, [decrypt] fails in the block cipher. *)
Theorem decrypt_truncated_blob :
  HashFunction_contract H ->
  forall (text password : string) (data : bytes),
    base64.b64decode text = ok data -> 32 <= length data ->
    (length data = 32 -> decrypt text password = raise InvalidPadding)
    /\ ((length data - 32) mod 16 <> 0 ->
        decrypt text password = raise NotBlockMultiple).
Proof.
  intros SHA_ok text password data Hdec Hlen.
  pose proof (derive_key_default_length SHA_ok password (firstn 16 data))
    as Hkey.
  assert (Hiv : length (firstn 16 (skipn 16 data)) = 16).
  { rewrite length_firstn, length_skipn. lia. }
  unfold decrypt. rewrite Hdec. cbn [bind].
  rewrite (ciphers_facts.Cipher_ok _ _ Hkey Hiv). cbn [bind].
  split.
  - intros H32. rewrite (@skipn_all2 _ 32 data) by lia.
    rewrite decryptor_empty. reflexivity.
  - intros Hmod. unfold ciphers.decryptor. rewrite length_skipn.
    replace ((length data - 32) mod 16 =? 0) with false
      by (symmetry; now apply Nat.eqb_neq).
    reflexivity.
Qed.


(** X5. What [decrypt] can do: it fails only in the base64 decoder, at
    the check of the IV length, in the block cipher or in the removal of
    the padding, or because the plaintext is not UTF-8 (never for the size
    of the key); and it returns a message only for a blob that decodes to
    at least 48 bytes, a multiple of 16. *)
Theorem decrypt_outcomes :
  HashFunction_contract H ->
  forall (text password : string),
    match decrypt text password with
    | inl e =>
        e = Base64Error \/ (exists n, e = InvalidIVSize n /\ n < 16)
        \/ e = NotBlockMultiple \/ e = InvalidPadding
        \/ e = UnicodeDecodeError
    | inr message =>
        utf8_valid (str_encode message) = true
        /\ exists data,
             base64.b64decode text = ok data
             /\ 48 <= length data /\ length data mod 16 = 0
    end.
Proof.
  intros SHA_ok text password. unfold decrypt.
  destruct (base64.b64decode text) as [e|data] eqn:Hdec; cbn [bind].
  { left. eapply b64decode_error, Hdec. }
  pose proof (derive_key_default_length SHA_ok password (firstn 16 data))
    as Hkey.
  destruct (ciphers.Cipher _ _) as [e|cipher] eqn:Hc; cbn [bind].
  { right; left. exists (length (firstn 16 (skipn 16 data))).
    apply (Cipher_error_32 _ _ _ Hkey) in Hc as [He Hiv].
    split; [exact He|]. rewrite length_firstn in *. lia. }
  apply Cipher_inv in Hc as [Hiv ->].
  destruct (ciphers.decryptor _ _) as [e|padded] eqn:Hd; cbn [bind].
  { right; right; left. eapply decryptor_error, Hd. }
  destruct (padding.unpad padded) as [e|message] eqn:Hu; cbn [bind].
  { right; right; right; left. eapply unpad_error, Hu. }
  destruct (bytes_decode message) as [e|s] eqn:Hs.
  { right; right; right; right. eapply bytes_decode_error, Hs. }
  unfold bytes_decode in Hs.
  destruct (utf8_valid message) eqn:Hutf; [|discriminate].
  inversion Hs; subst s. split.
  - unfold str_encode. now rewrite list_byte_of_string_of_list_byte.
  - exists data. split; [reflexivity|].
    apply decryptor_inv in Hd as [Hmod Hpadded].
    rewrite length_firstn, length_skipn in Hiv.
    rewrite length_skipn in Hmod.
    assert (Hne : length data <> 32).
    { intros H32. rewrite (@skipn_all2 _ 32 data) in Hpadded by lia.
      cbn in Hpadded. subst padded. discriminate Hu. }
    pose proof (Nat.div_mod_eq (length data - 32) 16) as Hdiv.
    rewrite Hmod in Hdiv. split; [lia|].
    replace (length data) with ((length data - 32) / 16 * 16 + 2 * 16) by lia.
    rewrite Nat.Div0.mod_add. apply Nat.Div0.mod_mul.
Qed.

End DecryptOutcomes.

Lemma decrypt_truncated_blob_witness :
  decrypt (C := Fake.block_cipher) (H := Fake.hash)
    "AAAAAAAAAAAAAAAAAAAAAAAAAAAAAAAAAAAAAAAAAAA=" "hunter2"
  = raise InvalidPadding.
Proof.
  refine (proj1 (decrypt_truncated_blob (C := Fake.block_cipher)
                   Fake_facts.hash_ok
                   "AAAAAAAAAAAAAAAAAAAAAAAAAAAAAAAAAAAAAAAAAAA=" "hunter2"
                   (repeat x00 32) eq_refl _) eq_refl).
  apply le_n.
Defined.

Lemma decrypt_outcomes_witness :
  match decrypt (C := Fake.block_cipher) (H := Fake.hash) "QUJD" "hunter2" with
  | inl e =>
      e = Base64Error \/ (exists n, e = InvalidIVSize n /\ n < 16)
      \/ e = NotBlockMultiple \/ e = InvalidPadding \/ e = UnicodeDecodeError
  | inr message =>
      utf8_valid (str_encode message) = true
      /\ exists data,
           base64.b64decode "QUJD" = ok data
           /\ 48 <= length data /\ length data mod 16 = 0
  end.
Proof.
  exact (decrypt_outcomes (C := Fake.block_cipher) Fake_facts.hash_ok
           "QUJD" "hunter2").
Defined.

Section KeyDerivationMore.
Context {H : HashFunction}.

Lemma firstn_concat_prefix {A} (n : nat) (a b : list A) :
  n <= length a -> firstn n (a ++ b) = firstn n a.
Proof.
  intros Hn. rewrite firstn_app. replace (n - length a) with 0 by lia.
  rewrite firstn_O. apply app_nil_r.
Qed.

Lemma PBKDF2HMAC_prefix (n m : nat) (salt : bytes) (c : N) (km : bytes) :
  HashFunction_contract H -> n <= m ->
  kdf.PBKDF2HMAC n salt c km = firstn n (kdf.PBKDF2HMAC m salt c km).
Proof.
  intros SHA_ok Hnm. unfold kdf.PBKDF2HMAC, kdf.digest_size.
  rewrite firstn_firstn, Nat.min_l by exact Hnm.
  set (f := fun i => kdf.pbkdf2_block km salt c (N.of_nat i)).
  set (ln := (n + 32 - 1) / 32). set (lm := (m + 32 - 1) / 32).
  assert (Hl : ln <= lm).
  { unfold ln, lm. apply Nat.Div0.div_le_mono. lia. }
  replace lm with (ln + (lm - ln)) by lia.
  rewrite seq_app, map_app, concat_app.
  symmetry. apply firstn_concat_prefix.
  rewrite (kdf_facts.concat_map_length f 32)
    by (intros; now apply kdf_facts.pbkdf2_block_length).
  rewrite length_seq. unfold ln.
  pose proof (Nat.div_mod_eq (n + 32 - 1) 32).
  pose proof (Nat.mod_upper_bound (n + 32 - 1) 32). lia.
Qed.

(** X6. A shorter key is the beginning of a longer one: for the same
    password and salt, [derive_key] with length [n] returns the first [n]
    bytes of what it returns with any length [m >= n]. *)
Theorem derive_key_prefix :
  HashFunction_contract H ->
  forall (password : string) (salt : bytes) (n m : nat),
    n <= m ->
    derive_key password salt (Some n)
    = firstn n (derive_key password salt (Some m)).
Proof.
  intros SHA_ok password salt n m Hnm. unfold derive_key.
  now apply PBKDF2HMAC_prefix.
Qed.

Lemma append_length (s1 s2 : string) :
  String.length (s1 ++ s2)%string = String.length s1 + String.length s2.
Proof. induction s1 as [|a s1 IH]; [reflexivity|]. cbn. now rewrite IH. Qed.

Lemma append_assoc (s1 s2 s3 : string) :
  ((s1 ++ s2) ++ s3)%string = (s1 ++ (s2 ++ s3))%string.
Proof. induction s1 as [|a s1 IH]; [reflexivity|]. cbn. now rewrite IH. Qed.

Lemma nuls_length (k : nat) : String.length (nuls k) = k.
Proof. induction k as [|k IH]; [reflexivity|]. cbn. now rewrite IH. Qed.

Lemma nuls_snoc (k : nat) :
  nuls (S k) = (nuls k ++ String "000" EmptyString)%string.
Proof. induction k as [|k IH]; [reflexivity|]. cbn [nuls append] in *. now rewrite <- IH. Qed.

Lemma append_empty (s : string) : (s ++ EmptyString)%string = s.
Proof. induction s as [|a s IH]; [reflexivity|]. cbn. now rewrite IH. Qed.

(** X7. Trailing NUL characters do not count: a password and the same
    password followed by NUL characters, 64 bytes at most in all, derive
    the same key from every salt. *)
Theorem derive_key_trailing_nuls :
  forall (password : string) (salt : bytes) (len : option nat) (k : nat),
    String.length password + k <= 64 ->
    derive_key (password ++ nuls k)%string salt len
    = derive_key password salt len.
Proof.
  intros password salt len k. induction k as [|k IH]; intros Hlen.
  - cbn [nuls]. now rewrite append_empty.
  - rewrite nuls_snoc, <- append_assoc.
    rewrite derive_key_nul by (rewrite append_length, nuls_length; lia).
    apply IH. lia.
Qed.

End KeyDerivationMore.

Lemma derive_key_prefix_witness :
  derive_key (H := Fake.hash) "hunter2" (repeat x00 16) (Some 16)
  = firstn 16 (derive_key (H := Fake.hash) "hunter2" (repeat x00 16) (Some 32)).
Proof.
  refine (derive_key_prefix Fake_facts.hash_ok "hunter2" (repeat x00 16)
            16 32 _).
  repeat constructor.
Defined.

Lemma derive_key_trailing_nuls_witness :
  derive_key (H := Fake.hash) ("hunter2" ++ nuls 2)%string (repeat x00 16) None
  = derive_key (H := Fake.hash) "hunter2" (repeat x00 16) None.
Proof.
  refine (derive_key_trailing_nuls (H := Fake.hash) "hunter2"
            (repeat x00 16) None 2 _).
  cbn. repeat constructor.
Defined.

Section Tampering.
Context {C : BlockCipher} {H : HashFunction} {E : Entropy}.

Lemma xor_byte_through (a i d : byte) :
  xor_byte (xor_byte a i) (xor_byte i d) = xor_byte a d.
Proof.
  unfold xor_byte.
  destruct (Byte.to_bits a) as (a0 & a1 & a2 & a3 & a4 & a5 & a6 & a7).
  destruct (Byte.to_bits i) as (i0 & i1 & i2 & i3 & i4 & i5 & i6 & i7).
  destruct (Byte.to_bits d) as (d0 & d1 & d2 & d3 & d4 & d5 & d6 & d7).
  rewrite !Byte.to_bits_of_bits.
  assert (Hx : forall x y z, xorb (xorb x y) (xorb y z) = xorb x z)
    by (intros [] [] []; reflexivity).
  now rewrite !Hx.
Qed.

Lemma xor_bytes_through (a i d : bytes) :
  length a = length i -> length i = length d ->
  xor_bytes (xor_bytes a i) (xor_bytes i d) = xor_bytes a d.
Proof.
  revert i d. induction a as [|x a IH]; intros [|y i] [|z d] H1 H2;
    simpl in *; try lia; [reflexivity|].
  rewrite xor_byte_through, IH by lia. reflexivity.
Qed.

Lemma blocks_first (data : bytes) :
  length data mod 16 = 0 -> 16 <= length data ->
  exists bs,
    ciphers.blocks data = firstn 16 data :: bs
    /\ concat bs = skipn 16 data /\ ciphers.full_blocks bs.
Proof.
  intros Hmod Hlen.
  pose proof (ciphers_facts.blocks_fuel_full (length data) data (le_n _) Hmod)
    as Hfull.
  pose proof (ciphers_facts.blocks_fuel_concat (length data) data (le_n _))
    as Hconcat.
  unfold ciphers.blocks.
  destruct (ciphers.blocks_fuel (length data) data) as [|b bs] eqn:Hb.
  { cbn in Hconcat. subst data. simpl in Hlen. lia. }
  inversion Hfull as [|b' bs' Hb16 Hbs [Eb Ebs]].
  cbn [concat] in Hconcat. exists bs.
  rewrite <- Hconcat.
  rewrite (firstn_exact b (concat bs) 16 Hb16).
  rewrite (skipn_exact b (concat bs) 16 Hb16).
  repeat split. exact Hbs.
Qed.

Lemma encryptor_inv (key iv data ct : bytes) :
  ciphers.encryptor {| ciphers.cipher_key := key; ciphers.cipher_iv := iv |}
    data = ok ct ->
  ct = concat (ciphers.cbc_encrypt_blocks key iv (ciphers.blocks data)).
Proof.
  unfold ciphers.encryptor. destruct (negb _); [discriminate|].
  cbn [ciphers.cipher_key ciphers.cipher_iv]. congruence.
Qed.

(** Decrypting under an IV changed by [delta] changes the first block of
    the plaintext by [delta] and nothing else. *)
Lemma decryptor_changed_iv (key iv delta data : bytes) :
  BlockCipher_contract C ->
  length key = 32 -> length iv = 16 -> length delta = 16 ->
  length data mod 16 = 0 -> 16 <= length data ->
  ciphers.decryptor
    {| ciphers.cipher_key := key; ciphers.cipher_iv := xor_bytes iv delta |}
    (concat (ciphers.cbc_encrypt_blocks key iv (ciphers.blocks data)))
  = ok (xor_bytes (firstn 16 data) delta ++ skipn 16 data).
Proof.
  intros AES_ok Hkey Hiv Hdelta Hmod Hlen.
  destruct (blocks_first data Hmod Hlen) as (bs & Hblocks & Hconcat & Hbs).
  assert (Hb : length (firstn 16 data) = 16) by (rewrite length_firstn; lia).
  assert (Hfull : ciphers.full_blocks (firstn 16 data :: bs))
    by (constructor; assumption).
  pose proof (ciphers_facts.cbc_encrypt_blocks_full AES_ok key _ Hkey Hfull
                iv Hiv) as Hcfull.
  pose proof (ciphers_facts.full_blocks_length _ Hcfull) as Hclen.
  rewrite Hblocks. unfold ciphers.decryptor, ciphers.blocks.
  rewrite Hclen, Nat.Div0.mod_mul. cbn [Nat.eqb negb].
  rewrite <- Hclen.
  rewrite ciphers_facts.blocks_fuel_of_concat by (assumption || apply le_n).
  cbn [ciphers.cipher_key ciphers.cipher_iv ciphers.cbc_encrypt_blocks
       ciphers.cbc_decrypt_blocks concat].
  assert (Hx : length (xor_bytes (firstn 16 data) iv) = 16).
  { rewrite xor_bytes_length, Hb, Hiv. reflexivity. }
  destruct (AES_ok _ _ Hkey Hx) as [Hc1 Hinv].
  rewrite Hinv, xor_bytes_through by lia.
  rewrite (ciphers_facts.cbc_decrypt_encrypt_blocks AES_ok key bs Hkey Hbs _ Hc1).
  now rewrite Hconcat.
Qed.

Lemma pad_changed_first_block (data delta : bytes) :
  16 <= length data -> length delta = 16 ->
  padding.pad (xor_bytes (firstn 16 data) delta ++ skipn 16 data)
  = xor_bytes (firstn 16 (padding.pad data)) delta
    ++ skipn 16 (padding.pad data).
Proof.
  intros Hlen Hdelta. unfold padding.pad.
  assert (Hl : length (xor_bytes (firstn 16 data) delta ++ skipn 16 data)
               = length data).
  { rewrite length_app, xor_bytes_length, length_firstn, length_skipn. lia. }
  rewrite Hl, firstn_concat_prefix by lia.
  rewrite skipn_app. replace (16 - length data) with 0 by lia.
  rewrite skipn_O, app_assoc. reflexivity.
Qed.

(** X8. The IV is not protected: changing the IV bytes of a blob by
    [delta] makes [decrypt] return, with no error from the cipher or the
    padding, the message with its first 16 bytes changed by [delta] (when
    that is still UTF-8 text). *)
Theorem iv_tampering_undetected :
  BlockCipher_contract C -> HashFunction_contract H -> Entropy_contract E ->
  forall (message password : string) (g : rng) (delta : bytes),
    16 <= length (str_encode message) -> length delta = 16 ->
    exists ct,
      fst (encrypt message password g)
      = ok (string_of_list_byte
              (base64.b64encode
                 (fst (urandom 16 g)
                  ++ fst (urandom 16 (snd (urandom 16 g))) ++ ct)))
      /\ decrypt
           (string_of_list_byte
              (base64.b64encode
                 (fst (urandom 16 g)
                  ++ xor_bytes (fst (urandom 16 (snd (urandom 16 g)))) delta
                  ++ ct)))
           password
         = bytes_decode (xor_bytes (firstn 16 (str_encode message)) delta
                         ++ skipn 16 (str_encode message)).
Proof.
  intros AES_ok SHA_ok urandom_ok message password g delta Hlen Hdelta.
  destruct (encrypt_shape AES_ok SHA_ok urandom_ok message password g)
    as (ct & Henc & _ & _ & Heq).
  pose proof (urandom_ok 16 g) as Hsalt.
  pose proof (urandom_ok 16 (snd (urandom 16 g))) as Hiv.
  pose proof (derive_key_default_length SHA_ok password (fst (urandom 16 g)))
    as Hkey.
  exists ct. rewrite Heq. split; [reflexivity|].
  apply encryptor_inv in Henc.
  assert (Hiv' : length (xor_bytes (fst (urandom 16 (snd (urandom 16 g))))
                           delta) = 16).
  { rewrite xor_bytes_length, Hiv, Hdelta. reflexivity. }
  rewrite (decrypt_split _ password _ _ ct Hsalt Hiv'
             (base64_text.b64decode_b64encode _)).
  rewrite (ciphers_facts.Cipher_ok _ _ Hkey Hiv'). cbn [bind].
  rewrite Henc.
  rewrite (decryptor_changed_iv _ _ delta _ AES_ok Hkey Hiv Hdelta
             (padding_facts.pad_length _)).
  - cbn [bind]. rewrite <- pad_changed_first_block by assumption.
    rewrite padding_facts.unpad_pad. reflexivity.
  - rewrite pad_length_exact. lia.
Qed.

End Tampering.

Lemma iv_tampering_undetected_witness :
  exists ct,
    fst (encrypt (C := Fake.block_cipher) (H := Fake.hash) (E := Fake.entropy)
           "0123456789abcdefXYZ" "hunter2" 0%N)
    = ok (string_of_list_byte
            (base64.b64encode
               (fst (urandom (Entropy := Fake.entropy) 16 0%N)
                ++ fst (urandom (Entropy := Fake.entropy) 16
                          (snd (urandom (Entropy := Fake.entropy) 16 0%N)))
                ++ ct)))
    /\ decrypt (C := Fake.block_cipher) (H := Fake.hash)
         (string_of_list_byte
            (base64.b64encode
               (fst (urandom (Entropy := Fake.entropy) 16 0%N)
                ++ xor_bytes
                     (fst (urandom (Entropy := Fake.entropy) 16
                             (snd (urandom (Entropy := Fake.entropy) 16 0%N))))
                     (x01 :: repeat x00 15)
                ++ ct)))
         "hunter2"
       = bytes_decode (xor_bytes (firstn 16 (str_encode "0123456789abcdefXYZ"))
                         (x01 :: repeat x00 15)
                       ++ skipn 16 (str_encode "0123456789abcdefXYZ")).
Proof.
  refine (iv_tampering_undetected (C := Fake.block_cipher) (H := Fake.hash)
            (E := Fake.entropy) Fake_facts.block_cipher_ok Fake_facts.hash_ok
            Fake_facts.entropy_ok "0123456789abcdefXYZ" "hunter2" 0%N
            (x01 :: repeat x00 15) _ _).
  - cbn. repeat constructor.
  - reflexivity.
Defined.

Section ForeignCharacters.
Context {C : BlockCipher} {H : HashFunction}.

Lemma list_byte_of_string_insert (s1 s2 : string) (c : ascii) :
  list_byte_of_string (s1 ++ String c s2)
  = list_byte_of_string s1 ++ byte_of_ascii c :: list_byte_of_string s2.
Proof.
  unfold list_byte_of_string.
  induction s1 as [|a s1 IH]; [reflexivity|].
  cbn [append list_ascii_of_string map app]. now rewrite IH.
Qed.

Lemma list_byte_of_string_app (s1 s2 : string) :
  list_byte_of_string (s1 ++ s2)
  = list_byte_of_string s1 ++ list_byte_of_string s2.
Proof.
  unfold list_byte_of_string.
  induction s1 as [|a s1 IH]; [reflexivity|].
  cbn [append list_ascii_of_string map app]. now rewrite IH.
Qed.

Lemma a2b_loop_insert (b : byte) (s1 s2 : bytes) :
  Byte.eqb b base64.pad_char = false -> base64.a2b b = None ->
  forall q lc p out,
    base64.a2b_loop (s1 ++ b :: s2) q lc p out
    = base64.a2b_loop (s1 ++ s2) q lc p out.
Proof.
  intros Hpad Hb. induction s1 as [|c s1 IH]; intros q lc p out.
  - cbn [app base64.a2b_loop]. now rewrite Hpad, Hb.
  - cbn [app base64.a2b_loop].
    destruct (Byte.eqb c base64.pad_char).
    + destruct ((2 <=? q)%N && (4 <=? q + (p + 1))%N)%bool;
        [reflexivity | apply IH].
    + destruct (base64.a2b c) as [n|]; [|apply IH].
      destruct (q =? 0)%N; [apply IH|].
      destruct (q =? 1)%N; [apply IH|].
      destruct (q =? 2)%N; apply IH.
Qed.

Lemma b64decode_insert (s1 s2 : string) (c : ascii) :
  passed_over c = true ->
  base64.b64decode (s1 ++ String c s2) = base64.b64decode (s1 ++ s2).
Proof.
  unfold passed_over. cbv zeta. intros Hc.
  apply andb_prop in Hc as [Hc Hnone]. apply andb_prop in Hc as [Hascii Hpad].
  apply Bool.negb_true_iff in Hpad.
  destruct (base64.a2b (byte_of_ascii c)) eqn:Hb; [discriminate|].
  unfold base64.b64decode.
  rewrite list_byte_of_string_insert, list_byte_of_string_app.
  rewrite !forallb_app. cbn [forallb]. rewrite Hascii. cbn [andb].
  now rewrite (a2b_loop_insert _ _ _ Hpad Hb).
Qed.

(** X9. Characters that do not belong to base64, such as a line break or
    a space, are passed over wherever they stand in a blob: [decrypt]
    returns for the blob with such a character inserted what it returns
    for the blob without it. *)
Theorem decrypt_passes_over :
  forall (s1 s2 password : string) (c : ascii),
    passed_over c = true ->
    decrypt (s1 ++ String c s2) password = decrypt (s1 ++ s2) password.
Proof.
  intros s1 s2 password c Hc. unfold decrypt.
  now rewrite (b64decode_insert s1 s2 c Hc).
Qed.

End ForeignCharacters.

Lemma decrypt_passes_over_witness :
  decrypt (C := Fake.block_cipher) (H := Fake.hash)
    ("QUJD" ++ String "010" EmptyString) "hunter2"
  = decrypt (C := Fake.block_cipher) (H := Fake.hash)
      ("QUJD" ++ EmptyString) "hunter2".
Proof.
  exact (decrypt_passes_over (C := Fake.block_cipher) (H := Fake.hash)
           "QUJD" EmptyString "hunter2" "010"%char eq_refl).
Defined.

(** ** The life cycle of a tunnel ([src/SSHTunnel.py]) *)

Section LifecycleMore.
Context {F : SSHForwarding} {I : Interpreter}.



(** X11. What [start] never does: it never changes one of the nine
    attributes, it never drops or replaces a forwarder the Tunnel holds,
    and it returns normally only with a forwarder in place. *)
Theorem start_invariants :
  forall (t : SSHTunnel) (w : network),
    same_TunnelSpec (snd (fst (start t w))) t
    /\ (forall h, _tunnel t = Some h -> snd (fst (start t w)) = t)
    /\ (fst (fst (start t w)) = ok tt ->
        _tunnel (snd (fst (start t w))) <> None).
Proof.
  intros t w.
  destruct (start_cases t w)
    as [[Hne Hs]|[(Hnone & e & He & Hs)|(Hnone & h & Hs)]]; rewrite Hs.
  - split; [repeat split|]. split; [reflexivity | intros _; exact Hne].
  - split; [repeat split|]. split; [reflexivity|].
    rewrite He. discriminate.
  - split; [repeat split|]. split; [congruence|].
    intros _. cbn [_tunnel set_tunnel]. discriminate.
Qed.

(** X12. [stop] followed by [start] builds a new forwarder from the same
    nine attributes: once [stop] has returned, [start] calls the
    constructor of the forwarder again, with the addresses and the
    credentials the Tunnel had before [stop], and the forwarder it held
    before is not used. *)
Theorem restart_after_stop :
  forall (t t1 : SSHTunnel) (w w1 : network),
    stop t w = (ok tt, t1, w1) ->
    (forall e w2,
        SSHTunnelForwarder (server_ip t, server_port t)
          (host_ip t, host_port t) (local_ip t, local_port t)
          (user t) (password t) w1 = (raise e, w2) ->
        start t1 w1 = (raise e, inactive t, w2))
    /\ (forall h' w2,
          SSHTunnelForwarder (server_ip t, server_port t)
            (host_ip t, host_port t) (local_ip t, local_port t)
            (user t) (password t) w1 = (ok h', w2) ->
          start t1 w1
          = if forwarder_is_active h' w2
            then (ok tt, set_tunnel t (Some h'), w2)
            else (fst (forwarder_start h' w2), set_tunnel t (Some h'),
                  snd (forwarder_start h' w2))).
Proof.
  intros t t1 w w1 Hs.
  assert (H1 : t1 = inactive t /\ printable t = true).
  { destruct (stop_cases t w) as [(_ & Ht & Hp)|(e & He & _)];
      rewrite Hs in *; cbn [fst snd] in *; [now split | discriminate He]. }
  destruct H1 as [-> Hp].
  assert (Hstart := start_printable_new (inactive t) w1 Hp eq_refl).
  cbn [inactive set_tunnel server_ip server_port host_ip host_port local_ip
       local_port user password] in Hstart.
  split.
  - intros e w2 Hnew. rewrite Hnew in Hstart. exact Hstart.
  - intros h' w2 Hnew. rewrite Hnew in Hstart. exact Hstart.
Qed.

End LifecycleMore.


Lemma restart_after_stop_witness :
  start (F := Fake.forwarding) (inactive Scenario.db) Scenario.network0
  = (ok tt, set_tunnel Scenario.db (Some 0),
     {| Fake.next_handle := 1; Fake.active := [0];
        Fake.refuse_connect := false; Fake.refuse_close := false |}).
Proof.
  exact (proj2 (restart_after_stop (F := Fake.forwarding)
                  Scenario.db (inactive Scenario.db)
                  Scenario.network0 Scenario.network0 eq_refl)
           0 _ eq_refl).
Defined.

(** ** The session store ([save_tunnels], [load_tunnels]) *)

Section StoreMore.
Context {F : SSHForwarding} {I : Interpreter} {C : BlockCipher}
        {H : HashFunction} {E : Entropy} {J : JSON}.










(** X16. A file that decrypts to JSON other than a list: [load_tunnels]
    returns the empty list for an empty object and for an empty string,
    and raises TypeError for every other value that is not a list, as it
    does for a list with an element that is not an object. *)
Theorem load_tunnels_other_json :
  forall (path pw blob text : string) (fs : filesystem) (v : value),
    read_text path fs = ok blob -> decrypt blob pw = ok text ->
    json_loads text = ok v ->
    match v with
    | VList l =>
        load_tunnels path pw fs = mapM SSHTunnel_kwargs l
        /\ (Exists (fun x => match x with VDict _ => False | _ => True end) l ->
            load_tunnels path pw fs = raise TypeError)
    | VDict [] | VStr EmptyString => load_tunnels path pw fs = ok []
    | _ => load_tunnels path pw fs = raise TypeError
    end.
Proof.
  intros path pw blob text fs v Hr Hd Hj.
  assert (Hload : load_tunnels path pw fs
                  = (items <- iterate v ;; mapM SSHTunnel_kwargs items)%result).
  { unfold load_tunnels. rewrite Hr. cbn [bind]. rewrite Hd. cbn [bind].
    rewrite Hj. reflexivity. }
  rewrite Hload. clear Hload Hr Hd Hj.
  destruct v as [ |b|z|s|l|d]; cbn [iterate bind]; try reflexivity.
  - destruct s as [|c s]; reflexivity.
  - split; [reflexivity|].
    intros Hex. destruct (mapM SSHTunnel_kwargs l) as [e|ts] eqn:Hm.
    + f_equal. eapply mapM_error; [|exact Hm]. intros a e'.
      apply SSHTunnel_kwargs_error.
    + exfalso. revert ts Hm.
      induction Hex as [x l Hx|x l Hex IH]; intros ts; cbn [mapM].
      * destruct x; try contradiction; cbn [SSHTunnel_kwargs bind];
          discriminate.
      * destruct (SSHTunnel_kwargs x); cbn [bind]; [discriminate|].
        destruct (mapM SSHTunnel_kwargs l) as [e|ts'] eqn:Hm';
          cbn [bind]; [discriminate|].
        intros _. now apply (IH ts').
  - destruct d as [|[k x] d]; reflexivity.
Qed.

End StoreMore.




Lemma load_tunnels_other_json_witness :
  exists blob,
    fst (encrypt (C := Fake.block_cipher) (H := Fake.hash) (E := Fake.entropy)
           (json_dumps (JSON := Fake.json) (VDict [])) "hunter2" 0%N)
    = ok blob
    /\ load_tunnels (F := Fake.forwarding) (C := Fake.block_cipher)
         (H := Fake.hash) (J := Fake.json) Scenario.session_file "hunter2"
         (write_text Scenario.session_file blob Scenario.empty_fs)
       = ok [].
Proof.
  destruct (decrypt_encrypt Fake_facts.block_cipher_ok Fake_facts.hash_ok
              Fake_facts.entropy_ok
              (json_dumps (JSON := Fake.json) (VDict [])) "hunter2" "hunter2"
              0%N eq_refl eq_refl) as (blob & Henc & Hdec).
  exists blob. split; [exact Henc|].
  exact (load_tunnels_other_json (F := Fake.forwarding)
           Scenario.session_file "hunter2" blob
           (json_dumps (JSON := Fake.json) (VDict []))
           (write_text Scenario.session_file blob Scenario.empty_fs)
           (VDict []) (read_write_text _ _ _) Hdec
           (proj2 (proj1 Fake_facts.json_ok (VDict []) eq_refl))).
Defined.

(** ** The form of a tunnel ([forms/tunnel_ui.py]) *)

Section FormFacts.
Context {F : SSHForwarding} {I : Interpreter}.

Lemma spin_is_port (z : Z) : is_port (VInt z) = spin_in_range z.
Proof. reflexivity. Qed.

(** X17. What the form gives for a new tunnel: [get_tunnel] returns a
    tunnel without a forwarder whose ports are in range; its [server_ip]
    is the text of the server field, or the text of the host field when
    the server field is empty; and it is a valid TunnelSpec unless both
    fields are empty. *)
Theorem get_tunnel_spec :
  forall self : TunnelUI,
    spins_in_range self = true ->
    port_invariant (get_tunnel self) = true
    /\ _tunnel (get_tunnel self) = None
    /\ server_ip (get_tunnel self)
       = VStr (if (server_ip_line_edit self =? EmptyString)%string
               then dest_ip_line_edit self else server_ip_line_edit self)
    /\ valid_TunnelSpec (get_tunnel self)
       = negb ((server_ip_line_edit self =? EmptyString)%string
               && (dest_ip_line_edit self =? EmptyString)%string).
Proof.
  intros self Hspins.
  assert (Hports : port_invariant (get_tunnel self) = true) by exact Hspins.
  split; [exact Hports|]. split; [reflexivity|].
  unfold valid_TunnelSpec. rewrite Hports.
  unfold get_tunnel, __init__.
  cbn [name local_ip host_ip user password server_ip is_str truthy andb].
  destruct (server_ip_line_edit self =? EmptyString)%string eqn:Hs;
    cbn [negb andb is_str truthy]; rewrite ?Hs; cbn [negb andb].
  - split; [reflexivity|]. now rewrite Bool.andb_true_r.
  - split; reflexivity.
Qed.

(** X18. What the form does to a tunnel that is edited: [update_tunnel]
    keeps the forwarder and stores the texts and the values as they are,
    the [server_ip] too.  So it agrees with [get_tunnel] on the nine
    attributes exactly when the server field is not empty or the host
    field is empty as well, and, with a server field left empty, the
    edited tunnel is not a valid TunnelSpec. *)
Theorem update_tunnel_spec :
  forall (self : TunnelUI) (t : SSHTunnel),
    _orig_tunnel self = Some t ->
    exists t',
      update_tunnel self = Some t'
      /\ _tunnel t' = _tunnel t
      /\ server_ip t' = VStr (server_ip_line_edit self)
      /\ (same_TunnelSpec t' (get_tunnel self)
          <-> server_ip_line_edit self <> EmptyString
              \/ dest_ip_line_edit self = EmptyString)
      /\ (spins_in_range self = true ->
          valid_TunnelSpec t'
          = negb (server_ip_line_edit self =? EmptyString)%string).
Proof.
  intros self t Horig. exists (update_attributes self t).
  unfold update_tunnel. rewrite Horig.
  split; [reflexivity|]. split; [reflexivity|]. split; [reflexivity|].
  split.
  - unfold same_TunnelSpec, update_attributes, get_tunnel, __init__.
    cbn [name local_ip local_port host_ip host_port server_port user
         password server_ip truthy].
    destruct (String.eqb_spec (server_ip_line_edit self) EmptyString)
      as [Hs|Hs]; cbn [negb].
    + rewrite Hs. split.
      * intros (_ & _ & _ & _ & _ & _ & _ & _ & Heq). right. congruence.
      * intros [Hne|Hd]; [congruence|]. rewrite Hd. repeat split.
    + split; [intros _; now left | intros _; repeat split].
  - intros Hspins.
    assert (Hports : port_invariant (update_attributes self t) = true)
      by exact Hspins.
    unfold valid_TunnelSpec. rewrite Hports.
    cbn [update_attributes name local_ip host_ip user password server_ip
         is_str truthy andb].
    now rewrite Bool.andb_true_r.
Qed.

End FormFacts.

Lemma get_tunnel_spec_witness :
  port_invariant (get_tunnel Edited.form) = true
  /\ _tunnel (get_tunnel Edited.form) = None
  /\ server_ip (get_tunnel Edited.form) = VStr "10.0.0.5"
  /\ valid_TunnelSpec (get_tunnel Edited.form) = true.
Proof.
  exact (get_tunnel_spec (F := Fake.forwarding) Edited.form eq_refl).
Defined.

Lemma update_tunnel_spec_witness :
  exists t',
    update_tunnel Edited.form = Some t'
    /\ _tunnel t' = _tunnel Scenario.db
    /\ server_ip t' = VStr (server_ip_line_edit Edited.form)
    /\ (same_TunnelSpec t' (get_tunnel Edited.form)
        <-> server_ip_line_edit Edited.form <> EmptyString
            \/ dest_ip_line_edit Edited.form = EmptyString)
    /\ (spins_in_range Edited.form = true ->
        valid_TunnelSpec t'
        = negb (server_ip_line_edit Edited.form =? EmptyString)%string).
Proof.
  exact (update_tunnel_spec (F := Fake.forwarding) Edited.form Scenario.db
           eq_refl).
Defined.

(** ** The handlers of the main window ([forms/main_ui.py]) *)

Section MainWindowFacts.
Context {F : SSHForwarding} {I : Interpreter} {Q : TreeView}.
















Context {C : BlockCipher} {H : HashFunction} {E : Entropy} {J : JSON}.

Lemma mapM_Forall {A B} (f : A -> result B) (P : B -> Prop) (l : list A) :
  (forall a b, f a = ok b -> P b) ->
  forall L, mapM f l = ok L -> Forall P L.
Proof.
  intros Hf. induction l as [|a l IH]; intros L; cbn [mapM].
  - intros HL. inversion HL. constructor.
  - destruct (f a) as [e|b] eqn:Hfa; cbn [bind]; [discriminate|].
    destruct (mapM f l) as [e|bs]; cbn [bind]; [discriminate|].
    intros HL. inversion HL; subst. constructor; [eapply Hf, Hfa | now apply IH].
Qed.

Lemma __init___invariant (lp hi hp u p : value) (n li si sp : option value) :
  _tunnel (__init__ lp hi hp u p n li si sp) = None
  /\ (truthy (server_ip (__init__ lp hi hp u p n li si sp)) = true
      \/ server_ip (__init__ lp hi hp u p n li si sp)
         = host_ip (__init__ lp hi hp u p n li si sp)).
Proof.
  split; [reflexivity|]. unfold __init__. cbn [server_ip host_ip].
  destruct (truthy match si with Some v => v | None => VNone end) eqn:Hs;
    cbn [negb]; [now left | now right].
Qed.

Lemma SSHTunnel_kwargs_invariant (d : value) (t : SSHTunnel) :
  SSHTunnel_kwargs d = ok t ->
  _tunnel t = None
  /\ (truthy (server_ip t) = true \/ server_ip t = host_ip t).
Proof.
  destruct d as [ | | | | |kw]; cbn [SSHTunnel_kwargs]; try discriminate.
  destruct (negb _); [discriminate|].
  destruct (lookup "local_port" kw); [|discriminate].
  destruct (lookup "host_ip" kw); [|discriminate].
  destruct (lookup "host_port" kw); [|discriminate].
  destruct (lookup "user" kw); [|discriminate].
  destruct (lookup "password" kw); [|discriminate].
  intros Ht. inversion Ht. apply __init___invariant.
Qed.

Lemma load_tunnels_Forall (P : SSHTunnel -> Prop) (path pw : string)
      (fs : filesystem) (L : list SSHTunnel) :
  (forall d t, SSHTunnel_kwargs d = ok t -> P t) ->
  load_tunnels path pw fs = ok L -> Forall P L.
Proof.
  intros HP. unfold load_tunnels.
  destruct (read_text path fs) as [e|blob]; cbn [bind]; [discriminate|].
  destruct (decrypt blob pw) as [e|text]; cbn [bind]; [discriminate|].
  destruct (json_loads text) as [e|data]; cbn [bind]; [discriminate|].
  destruct (iterate data) as [e|ds]; cbn [bind]; [discriminate|].
  now apply mapM_Forall.
Qed.

(** X23. What [load_tunnels] returns, from any file: every tunnel of the
    list is without a forwarder, so it is active in no network, and its
    [server_ip] is true or is its [host_ip]. *)
Theorem load_tunnels_invariant :
  forall (path pw : string) (fs : filesystem) (L : list SSHTunnel),
    load_tunnels path pw fs = ok L ->
    Forall (fun t =>
              _tunnel t = None /\ (forall w, is_active t w = false)
              /\ (truthy (server_ip t) = true \/ server_ip t = host_ip t)) L.
Proof.
  intros path pw fs L. apply load_tunnels_Forall.
  intros d t Ht. destruct (SSHTunnel_kwargs_invariant d t Ht) as [Hn Hs].
  split; [exact Hn|]. split; [|exact Hs].
  intros w. unfold is_active. now rewrite Hn.
Qed.









End MainWindowFacts.
Lemma load_tunnels_invariant_witness :
  Forall (fun t : @SSHTunnel Fake.forwarding =>
            _tunnel t = None /\ (forall w, is_active t w = false)
            /\ (truthy (server_ip t) = true \/ server_ip t = host_ip t))
    (map inactive [Scenario.db]).
Proof.
  apply (load_tunnels_invariant (F := Fake.forwarding)
           (C := Fake.block_cipher) (H := Fake.hash) (J := Fake.json)
           Scenario.session_file "hunter2"
           (snd (fst (save_tunnels (F := Fake.forwarding)
                        (C := Fake.block_cipher) (H := Fake.hash)
                        (E := Fake.entropy) (J := Fake.json)
                        [Scenario.db] Scenario.session_file "hunter2"
                        Scenario.empty_fs 0%N)))).
  refine (proj2 (load_after_save (F := Fake.forwarding)
                   Fake_facts.block_cipher_ok Fake_facts.hash_ok
                   Fake_facts.entropy_ok Fake_facts.json_ok
                   [Scenario.db] Scenario.session_file "hunter2" "hunter2"
                   Scenario.empty_fs 0%N _ eq_refl)).
  constructor; [exact db_valid | constructor].
Defined.




(** At a tunnel whose name cannot be written as text the loop stops and
    a click leaves its mark: the tunnel named db behind it is not
    started, no dialog names a tunnel, and the box that was clicked stays
    checked over a tunnel that is not active. *)
Example start_all_stops_early :
  _on_start_all_button_click (F := Fake.forwarding)
    [{| tunnel := Unwritable.numbered; check_box := Some false |};
     {| tunnel := Scenario.db; check_box := Some false |}]
    Scenario.network0 []
  = ([{| tunnel := Unwritable.numbered; check_box := Some false |};
      {| tunnel := Scenario.db; check_box := Some false |}],
     Scenario.network0, [ErrorDialog None ValueError]).
Proof. vm_compute. reflexivity. Qed.

Example toggle_keeps_the_click :
  _toggle_tunnel (F := Fake.forwarding) Unwritable.numbered true
    Scenario.network0 []
  = ({| tunnel := Unwritable.numbered; check_box := Some true |},
     Scenario.network0, [ErrorDialog None ValueError])
  /\ is_active (F := Fake.forwarding) Unwritable.numbered Scenario.network0
     = false.
Proof. split; vm_compute; reflexivity. Qed.

(** A loaded tunnel whose name is a list gets no row: the error of the
    item is shown and the tunnel is kept without a check box, so the
    next click on the button that starts all tunnels starts it and then
    fails on the missing box. *)
Example row_of_a_list_name :
  _add_tunnel (F := Fake.forwarding) (Q := FakeView.tree_view)
    Unwritable.listed ([], [])
  = ([{| tunnel := Unwritable.listed; check_box := None |}],
     [ErrorDialog None TypeError])
  /\ _on_start_all_button_click (F := Fake.forwarding)
       [{| tunnel := Unwritable.listed; check_box := None |}]
       Scenario.network0 []
     = ([{| tunnel := set_tunnel Unwritable.listed (Some 0);
            check_box := None |}],
        {| Fake.next_handle := 1; Fake.active := [0];
           Fake.refuse_connect := false; Fake.refuse_close := false |},
        [ErrorDialog None AttributeError]).
Proof. split; vm_compute; reflexivity. Qed.


